(** * XToPod: the feed-extraction and deduplication engine

    A shallow embedding of [src/src/scrapers/playwright_scraper.py] and of the
    [Tweet] / [ScrapingSession] models of [src/src/scrapers/models.py]:
    the payload walker [find_tweet_results], the record normalizer
    [_parse_tweet_object], the per-payload extraction
    [_extract_tweets_from_response], the response handler [_handle_response]
    with its deduplicating dictionary, and the scroll loop of
    [scrape_for_you_feed]; besides, the sibling generators
    [scrape_user_timeline] and [scrape_search], the cookies of
    [_add_authentication], the convenience function [scrape_for_you] and
    [TweetThread.calculate_engagement].

    Python values are dynamically typed, so the embedding keeps the JSON tree
    untyped and gives every Python operation the code applies to it
    ([.get], [in], [[...]], iteration, [int(...)], truthiness) its outcome on
    every shape of value, an exception included. *)

From Stdlib Require Import List String Ascii ZArith Bool Lia.
From Stdlib Require Import QArith_base.
Import ListNotations.

Local Open Scope string_scope.
Local Open Scope list_scope.
Local Open Scope Z_scope.

(** ** Python values decoded from a JSON body *)

(** A Python [float]: [json.loads] produces infinities for literals out of
    range and accepts the [NaN] and [Infinity] literals. *)
Inductive pyfloat : Type :=
| Finite (q : Q)
| Inf (negative : bool)
| NaN.

(** What [response.json()] returns.  A [dict] keeps its insertion order; it is
    an association list whose keys are pairwise distinct, read by its first
    binding. *)
#[warnings="-register-all"]
Inductive json : Type :=
| JNull
| JBool (b : bool)
| JInt (z : Z)
| JFloat (f : pyfloat)
| JStr (s : string)
| JList (items : list json)
| JDict (kvs : list (string * json)).

(** ** Exceptions and results *)

(** The built-in exceptions the extraction code can meet, and pydantic's
    [ValidationError]; all of them derive from [Exception]. *)
Inductive exn : Type :=
| AttributeError
| TypeError
| ValueError
| KeyError
| OverflowError
| ValidationError
| RecursionError.

Inductive result (A : Type) : Type :=
| Ok (a : A)
| Raise (e : exn).

Arguments Ok {A} a.
Arguments Raise {A} e.

Definition bind {A B : Type} (r : result A) (k : A -> result B) : result B :=
  match r with
  | Ok a => k a
  | Raise e => Raise e
  end.

Notation "x <- e ;; k" := (bind e (fun x => k))
  (at level 61, e at next level, right associativity).

Definition raises {A : Type} (r : result A) : bool :=
  match r with
  | Ok _ => false
  | Raise _ => true
  end.

(** [[f(x) for x in xs]], stopping at the first exception. *)
Fixpoint map_result {A B : Type} (f : A -> result B) (xs : list A) : result (list B) :=
  match xs with
  | [] => Ok []
  | x :: rest =>
      y <- f x ;;
      ys <- map_result f rest ;;
      Ok (y :: ys)
  end.

(** ** Python operations on decoded values *)

(** [needle in hay] for two [str]. *)
Fixpoint str_contains (needle hay : string) : bool :=
  String.prefix needle hay
  || match hay with
     | EmptyString => false
     | String _ rest => str_contains needle rest
     end.

(** The value bound to [k], if any. *)
Fixpoint dict_lookup (k : string) (kvs : list (string * json)) : option json :=
  match kvs with
  | [] => None
  | (k', v) :: rest => if String.eqb k k' then Some v else dict_lookup k rest
  end.

Definition dict_has (k : string) (kvs : list (string * json)) : bool :=
  match dict_lookup k kvs with
  | Some _ => true
  | None => false
  end.

Definition is_dict (v : json) : bool :=
  match v with
  | JDict _ => true
  | _ => false
  end.

(** [bool(v)]. *)
Definition truthy (v : json) : bool :=
  match v with
  | JNull => false
  | JBool b => b
  | JInt z => negb (z =? 0)
  | JFloat (Finite q) => negb (Qnum q =? 0)
  | JFloat _ => true
  | JStr s => negb (String.eqb s "")
  | JList items => match items with [] => false | _ => true end
  | JDict kvs => match kvs with [] => false | _ => true end
  end.

(** [o.get(k, d)]: only a [dict] has the method. *)
Definition py_get (o : json) (k : string) (d : json) : result json :=
  match o with
  | JDict kvs =>
      match dict_lookup k kvs with
      | Some v => Ok v
      | None => Ok d
      end
  | _ => Raise AttributeError
  end.

(** [k in o] for a [str] [k]: key membership in a [dict], element membership
    in a [list], substring test in a [str], [TypeError] elsewhere. *)
Definition py_contains (k : string) (o : json) : result bool :=
  match o with
  | JDict kvs => Ok (dict_has k kvs)
  | JList items =>
      Ok (existsb (fun x => match x with JStr s => String.eqb s k | _ => false end) items)
  | JStr s => Ok (str_contains k s)
  | _ => Raise TypeError
  end.

(** [o[k]] for a [str] [k]. *)
Definition py_getitem (o : json) (k : string) : result json :=
  match o with
  | JDict kvs =>
      match dict_lookup k kvs with
      | Some v => Ok v
      | None => Raise KeyError
      end
  | _ => Raise TypeError
  end.

(** The characters of a [str], each a [str] of length one. *)
Fixpoint str_chars (s : string) : list json :=
  match s with
  | EmptyString => []
  | String c rest => JStr (String c EmptyString) :: str_chars rest
  end.

(** What [for x in o] ranges over. *)
Definition py_iter (o : json) : result (list json) :=
  match o with
  | JList items => Ok items
  | JDict kvs => Ok (map (fun kv => JStr (fst kv)) kvs)
  | JStr s => Ok (str_chars s)
  | _ => Raise TypeError
  end.

(** ** Library functions on strings

    The parsers of the libraries the code calls are taken as an interface:
    [datetime.strptime] for the format ["%a %b %d %H:%M:%S %z %Y"], the
    built-in [int] on a [str], and pydantic's lax coercions of a [str] to an
    [int] and to a [bool].  [None] stands for the library's refusal.

    The interpreter's recursion limit belongs to the interface as well:
    [recursion_room] is the number of nested calls of the payload walker
    that the limit ([sys.getrecursionlimit()], less the frames already on
    the stack) allows where the response handler calls it. *)

Record datetime : Type := {
  dt_year : Z;
  dt_month : Z;
  dt_day : Z;
  dt_hour : Z;
  dt_minute : Z;
  dt_second : Z;
  dt_utcoffset_minutes : Z
}.

Class PyLib : Type := {
  strptime : string -> option datetime;
  int_of_str : string -> option Z;
  lax_int_of_str : string -> option Z;
  lax_bool_of_str : string -> option bool;
  recursion_room : nat
}.

(** Truncation toward zero, as [int(x)] does on a finite [float]. *)
Definition Qtrunc (q : Q) : Z := Z.quot (Qnum q) (Zpos (Qden q)).

Definition Qintegral (q : Q) : bool := Z.rem (Qnum q) (Zpos (Qden q)) =? 0.

Section WithLibrary.
Context {L : PyLib}.

(** [int(v)]. *)
Definition py_int (v : json) : result Z :=
  match v with
  | JInt z => Ok z
  | JBool b => Ok (if b then 1 else 0)
  | JFloat (Finite q) => Ok (Qtrunc q)
  | JFloat (Inf _) => Raise OverflowError
  | JFloat NaN => Raise ValueError
  | JStr s =>
      match int_of_str s with
      | Some z => Ok z
      | None => Raise ValueError
      end
  | _ => Raise TypeError
  end.

(** [datetime.strptime(v, "%a %b %d %H:%M:%S %z %Y")] under
    [try: ... except ValueError: pass]: a [str] that does not parse leaves the
    timestamp absent, a value that is not a [str] raises [TypeError]. *)
Definition parse_created_at (v : json) : result (option datetime) :=
  match v with
  | JStr s => Ok (strptime s)
  | _ => Raise TypeError
  end.

(** ** The [Tweet] model (pydantic, lax mode) *)

Definition validate_str (v : json) : result string :=
  match v with
  | JStr s => Ok s
  | _ => Raise ValidationError
  end.

Definition validate_opt_str (v : json) : result (option string) :=
  match v with
  | JNull => Ok None
  | JStr s => Ok (Some s)
  | _ => Raise ValidationError
  end.

(** An [int] field takes an integer of any size, a [bool], a finite
    [float] without a fraction that lies strictly between [-2^63] and
    [2^63], and the strings the library takes. *)
Definition validate_int (v : json) : result Z :=
  match v with
  | JInt z => Ok z
  | JBool b => Ok (if b then 1 else 0)
  | JFloat (Finite q) =>
      if Qintegral q && (- 2 ^ 63 <? Qtrunc q) && (Qtrunc q <? 2 ^ 63)
      then Ok (Qtrunc q) else Raise ValidationError
  | JStr s =>
      match lax_int_of_str s with
      | Some z => Ok z
      | None => Raise ValidationError
      end
  | _ => Raise ValidationError
  end.

Definition validate_bool (v : json) : result bool :=
  match v with
  | JBool b => Ok b
  | JInt 0 => Ok false
  | JInt 1 => Ok true
  | JFloat (Finite q) =>
      if Qintegral q then
        match Qtrunc q with
        | 0 => Ok false
        | 1 => Ok true
        | _ => Raise ValidationError
        end
      else Raise ValidationError
  | JStr s =>
      match lax_bool_of_str s with
      | Some b => Ok b
      | None => Raise ValidationError
      end
  | _ => Raise ValidationError
  end.

(** The fields [_parse_tweet_object] sets; [scraped_at] (the clock) and the
    analysis fields keep their defaults and are not modelled. *)
Record Tweet : Type := {
  tweet_id : string;
  user_id : string;
  username : string;
  display_name : string;
  text : string;
  created_at : option datetime;
  likes : Z;
  retweets : Z;
  replies : Z;
  views : option Z;
  is_retweet : bool;
  is_reply : bool;
  is_quote : bool;
  has_media : bool;
  media_urls : list string;
  tweet_url : string;
  reply_to_tweet_id : option string;
  feed_type : string
}.

(** The keyword arguments of the [Tweet(...)] call, before validation. *)
Record TweetArgs : Type := {
  a_tweet_id : json;
  a_user_id : json;
  a_username : json;
  a_display_name : json;
  a_text : json;
  a_created_at : option datetime;
  a_likes : json;
  a_retweets : json;
  a_replies : json;
  a_views : option Z;
  a_is_retweet : json;
  a_is_reply : bool;
  a_is_quote : bool;
  a_has_media : bool;
  a_media_urls : list json;
  a_reply_to_tweet_id : json
}.

(** [Tweet(...)]: every field is validated against its annotation.  The URL
    [f"https://x.com/{username}/status/{tweet_id}"] is formatted by the caller
    before the call; formatting cannot raise and its value is only observable
    when [username] and [tweet_id] validate as [str], so it is built here from
    the validated strings. *)
Definition Tweet_new (a : TweetArgs) : result Tweet :=
  tid <- validate_str (a_tweet_id a) ;;
  uid <- validate_str (a_user_id a) ;;
  uname <- validate_str (a_username a) ;;
  dname <- validate_str (a_display_name a) ;;
  txt <- validate_str (a_text a) ;;
  lk <- validate_int (a_likes a) ;;
  rt <- validate_int (a_retweets a) ;;
  rp <- validate_int (a_replies a) ;;
  isrt <- validate_bool (a_is_retweet a) ;;
  urls <- map_result validate_str (a_media_urls a) ;;
  reply_to <- validate_opt_str (a_reply_to_tweet_id a) ;;
  Ok {| tweet_id := tid;
        user_id := uid;
        username := uname;
        display_name := dname;
        text := txt;
        created_at := a_created_at a;
        likes := lk;
        retweets := rt;
        replies := rp;
        views := a_views a;
        is_retweet := isrt;
        is_reply := a_is_reply a;
        is_quote := a_is_quote a;
        has_media := a_has_media a;
        media_urls := urls;
        tweet_url := "https://x.com/" ++ uname ++ "/status/" ++ tid;
        reply_to_tweet_id := reply_to;
        feed_type := "for_you" |}.

(** ** Record normalizer: [_parse_tweet_object] *)

(** [Ok None] is the rejection [return None]; [Raise] an exception leaving
    the function. *)
Definition _parse_tweet_object (obj : json) : result (option Tweet) :=
  legacy <- py_get obj "legacy" obj ;;
  core <- py_get obj "core" (JDict []) ;;
  user_results_wrapper <- py_get core "user_results" (JDict []) ;;
  user_results <- py_get user_results_wrapper "result" (JDict []) ;;
  user_legacy <- py_get user_results "legacy" (JDict []) ;;
  rest_id <- py_get obj "rest_id" JNull ;;
  tweet_id <- (if truthy rest_id then Ok rest_id else py_get legacy "id_str" JNull) ;;
  if negb (truthy tweet_id) then Ok None else
  text <- py_get legacy "full_text" (JStr "") ;;
  if negb (truthy text) then Ok None else
  user_id <- py_get user_results "rest_id" (JStr "") ;;
  username <- py_get user_legacy "screen_name" (JStr "") ;;
  display_name <- py_get user_legacy "name" username ;;
  likes <- py_get legacy "favorite_count" (JInt 0) ;;
  retweets <- py_get legacy "retweet_count" (JInt 0) ;;
  replies <- py_get legacy "reply_count" (JInt 0) ;;
  has_views <- py_contains "views" obj ;;
  views <- (if has_views then
              views_block <- py_getitem obj "views" ;;
              count <- py_get views_block "count" (JInt 0) ;;
              n <- py_int count ;;
              Ok (Some n)
            else Ok None) ;;
  has_created_at <- py_contains "created_at" legacy ;;
  created_at <- (if has_created_at then
                   raw <- py_getitem legacy "created_at" ;;
                   parse_created_at raw
                 else Ok None) ;;
  extended_entities <- py_get legacy "extended_entities" (JDict []) ;;
  media_present <- py_contains "media" extended_entities ;;
  media_urls <- (if media_present then
                   media_list <- py_getitem extended_entities "media" ;;
                   entries <- py_iter media_list ;;
                   map_result (fun media => py_get media "media_url_https" (JStr "")) entries
                 else Ok []) ;;
  retweeted_result <- py_contains "retweeted_status_result" obj ;;
  is_retweet <- (if retweeted_result then Ok (JBool true)
                 else py_get legacy "retweeted" (JBool false)) ;;
  in_reply_to <- py_get legacy "in_reply_to_status_id_str" JNull ;;
  is_quote <- py_contains "quoted_status_result" obj ;;
  reply_to <- py_get legacy "in_reply_to_status_id_str" JNull ;;
  t <- Tweet_new {| a_tweet_id := tweet_id;
                    a_user_id := user_id;
                    a_username := username;
                    a_display_name := display_name;
                    a_text := text;
                    a_created_at := created_at;
                    a_likes := likes;
                    a_retweets := retweets;
                    a_replies := replies;
                    a_views := views;
                    a_is_retweet := is_retweet;
                    a_is_reply := truthy in_reply_to;
                    a_is_quote := is_quote;
                    a_has_media := media_present;
                    a_media_urls := media_urls;
                    a_reply_to_tweet_id := reply_to |} ;;
  Ok (Some t).

End WithLibrary.

(** ** Payload walker: [find_tweet_results]

    The [path] argument of the source only builds a string that is never
    read; it is left out.  The function calls itself once per nesting level
    of the payload, and the interpreter raises [RecursionError] at the call
    that exceeds its recursion limit: [room] is the number of nested calls
    of the walker the limit still allows, so that a call with no room left
    raises before it looks at its argument. *)

Fixpoint find_tweet_results (room : nat) (obj : json) : result (list json) :=
  match room with
  | O => Raise RecursionError
  | S room' =>
      match obj with
      | JDict kvs =>
          wrapped <- (if dict_has "tweet_results" kvs then
                        wrapper <- py_getitem obj "tweet_results" ;;
                        result <- py_get wrapper "result" (JDict []) ;;
                        Ok (if truthy result then [result] else [])
                      else Ok []) ;;
          own <- (if dict_has "legacy" kvs then
                    legacy <- py_get obj "legacy" (JDict []) ;;
                    has_text <- py_contains "full_text" legacy ;;
                    Ok (if has_text then [obj] else [])
                  else Ok []) ;;
          nested <- (fix values (l : list (string * json)) : result (list json) :=
                       match l with
                       | [] => Ok []
                       | (_, value) :: rest =>
                           here <- find_tweet_results room' value ;;
                           there <- values rest ;;
                           Ok (here ++ there)
                       end) kvs ;;
          Ok (wrapped ++ own ++ nested)
      | JList items =>
          (fix elements (l : list json) : result (list json) :=
             match l with
             | [] => Ok []
             | item :: rest =>
                 here <- find_tweet_results room' item ;;
                 there <- elements rest ;;
                 Ok (here ++ there)
             end) items
      | _ => Ok []
      end
  end.

(** The two [results.extend(find_tweet_results(...))] loops, as one function
    over the children of a node; [room] is what is left for the calls on
    the children. *)
Fixpoint walk_children (room : nat) (children : list json) : result (list json) :=
  match children with
  | [] => Ok []
  | child :: rest =>
      here <- find_tweet_results room child ;;
      there <- walk_children room rest ;;
      Ok (here ++ there)
  end.

(** What a map node emits for its [tweet_results] key. *)
Definition emit_wrapped (obj : json) : result (list json) :=
  match obj with
  | JDict kvs =>
      if dict_has "tweet_results" kvs then
        wrapper <- py_getitem obj "tweet_results" ;;
        result <- py_get wrapper "result" (JDict []) ;;
        Ok (if truthy result then [result] else [])
      else Ok []
  | _ => Ok []
  end.

(** What a map node emits for its [legacy] key. *)
Definition emit_own (obj : json) : result (list json) :=
  match obj with
  | JDict kvs =>
      if dict_has "legacy" kvs then
        legacy <- py_get obj "legacy" (JDict []) ;;
        has_text <- py_contains "full_text" legacy ;;
        Ok (if has_text then [obj] else [])
      else Ok []
  | _ => Ok []
  end.

Section Extraction.
Context {L : PyLib}.

(** ** Per-payload extraction: [_extract_tweets_from_response] *)

(** One turn of [for tweet_obj in tweet_objects] with its [try]/[except]. *)
Definition parse_step (tweets : list Tweet) (tweet_obj : json) : list Tweet :=
  match _parse_tweet_object tweet_obj with
  | Ok (Some tweet) => tweets ++ [tweet]
  | Ok None => tweets
  | Raise _ => tweets
  end.

Definition _extract_tweets_from_response (data : json) : result (list Tweet) :=
  tweet_objects <- find_tweet_results recursion_room data ;;
  Ok (fold_left parse_step tweet_objects []).

(** ** Deduplicating collector: the dict [_collected_tweets] *)

(** Insertion-ordered, keyed by [tweet_id]. *)
Definition Collector : Type := list (string * Tweet).

Definition collector_has (id : string) (c : Collector) : bool :=
  existsb (fun entry => String.eqb id (fst entry)) c.

Definition collector_get (id : string) (c : Collector) : option Tweet :=
  match find (fun entry => String.eqb id (fst entry)) c with
  | Some entry => Some (snd entry)
  | None => None
  end.

(** [if tweet.tweet_id not in self._collected_tweets:
       self._collected_tweets[tweet.tweet_id] = tweet];
    the flag tells whether the branch was taken. *)
Definition collector_add (c : Collector) (tweet : Tweet) : Collector * bool :=
  if collector_has (tweet_id tweet) c then (c, false)
  else (c ++ [(tweet_id tweet, tweet)], true).

Definition size (c : Collector) : nat := List.length c.

(** [list(self._collected_tweets.values())]. *)
Definition values (c : Collector) : list Tweet := map snd c.

Definition keys (c : Collector) : list string := map fst c.

(** ** Response handler: [_handle_response] *)

(** An intercepted response: its URL, and what [await response.json()]
    gives ([None] when the body is not JSON and the call raises). *)
Record Response : Type := {
  url : string;
  body : option json
}.

Definition endpoints : list string :=
  ["HomeTimeline"; "HomeLatestTimeline"; "ForYou"; "TweetDetail"].

Definition is_feed_response (u : string) : bool :=
  str_contains "graphql" u && existsb (fun endpoint => str_contains endpoint u) endpoints.

Definition _handle_response (c : Collector) (response : Response) : Collector :=
  if is_feed_response (url response) then
    match body response with
    | None => c
    | Some data =>
        match _extract_tweets_from_response data with
        | Raise _ => c
        | Ok tweets => fold_left (fun acc tweet => fst (collector_add acc tweet)) tweets c
        end
    end
  else c.

(** The handler run on every response intercepted during one suspension. *)
Definition handle_all (c : Collector) (responses : list Response) : Collector :=
  fold_left _handle_response responses c.

End Extraction.

(** ** Session controller: [scrape_for_you_feed]

    The browser driver is outside the code.  It is modelled by a script: for
    every suspension point ([await], [yield]) of [scrape_for_you_feed], the
    responses whose handler ran during the suspension and, for a driver call,
    whether it raised.  The consumer drains the generator. *)

Record ScraperConfig : Type := {
  max_scrolls : Z;
  tweets_per_session : Z
}.

Definition default_config : ScraperConfig :=
  {| max_scrolls := 50; tweets_per_session := 100 |}.

Inductive Status : Type :=
| running
| completed
| failed.

(** The fields of [ScrapingSession] the scroll loop writes. *)
Record ScrapingSession : Type := {
  status : Status;
  error_message : option string;
  tweets_collected : nat
}.

(** One awaited driver call: the responses intercepted meanwhile, and
    [str(e)] when the call raised [e]. *)
Record Awaited : Type := {
  arrived : list Response;
  failure : option string
}.

(** One turn of the [while] loop: [_scroll_page]; the suspensions at the
    [yield]s of the turn; the recovery scroll with its [sleep(2.0)]. *)
Record Iteration : Type := {
  during_scroll : Awaited;
  during_yield : list Response;
  during_recovery : Awaited
}.

Record Driver : Type := {
  goto : Awaited;
  wait_for_selector : Awaited;
  iteration : nat -> Iteration;
  storage_state : option string
}.

(** The local variables of the loop, the dict, and what was yielded so far. *)
Record LoopState : Type := {
  collected : Collector;
  scrolls : nat;
  last_count : nat;
  no_new_tweets_count : nat;
  yielded : list Tweet;
  yield_count : nat
}.

Inductive LoopExit : Type :=
| Finished (st : LoopState)
| Crashed (st : LoopState) (reason : string).

(** [l[a:b]] for [0 <= a <= b]. *)
Definition slice {A : Type} (a b : nat) (l : list A) : list A :=
  firstn (b - a) (skipn a l).

Section Session.
Context {L : PyLib}.
Variable cfg : ScraperConfig.
Variable d : Driver.

(** The stall threshold and the recovery threshold are literals of the
    source. *)
Definition stall_threshold : nat := 8.
Definition recovery_threshold : nat := 2.

(** The [while] loop.  [fuel] bounds the unfolding; [None] means the bound
    was reached with the loop condition still true. *)
Fixpoint scroll_loop (max_tweets : Z) (fuel : nat) (st : LoopState) : option LoopExit :=
  if (Z.of_nat (size (collected st)) <? max_tweets)
     && (Z.of_nat (scrolls st) <? max_scrolls cfg)
  then
    match fuel with
    | O => None
    | S fuel' =>
        let it := iteration d (scrolls st) in
        let c1 := handle_all (collected st) (arrived (during_scroll it)) in
        match failure (during_scroll it) with
        | Some reason =>
            Some (Crashed {| collected := c1;
                             scrolls := scrolls st;
                             last_count := last_count st;
                             no_new_tweets_count := no_new_tweets_count st;
                             yielded := yielded st;
                             yield_count := yield_count st |} reason)
        | None =>
            let current_count := size c1 in
            if Nat.ltb (last_count st) current_count then
              let new_tweets := slice (last_count st) current_count (values c1) in
              scroll_loop max_tweets fuel'
                {| collected := handle_all c1 (during_yield it);
                   scrolls := S (scrolls st);
                   last_count := current_count;
                   no_new_tweets_count := 0;
                   yielded := yielded st ++ new_tweets;
                   yield_count := (yield_count st + List.length new_tweets)%nat |}
            else
              let no_new := S (no_new_tweets_count st) in
              let recovers := Nat.leb recovery_threshold no_new in
              let c2 := if recovers then handle_all c1 (arrived (during_recovery it)) else c1 in
              let st' := {| collected := c2;
                            scrolls := S (scrolls st);
                            last_count := last_count st;
                            no_new_tweets_count := no_new;
                            yielded := yielded st;
                            yield_count := yield_count st |} in
              match (if recovers then failure (during_recovery it) else None) with
              | Some reason => Some (Crashed st' reason)
              | None =>
                  if Nat.leb stall_threshold no_new then Some (Finished st')
                  else scroll_loop max_tweets fuel' st'
              end
        end
    end
  else Some (Finished st).

(** What the caller of the generator observes once it is exhausted. *)
Record SessionResult : Type := {
  session : ScrapingSession;
  stream : list Tweet;
  raised : option string;
  scroll_count : nat;
  store : Collector
}.

Definition session_failed (st : LoopState) (reason : string) : SessionResult :=
  {| session := {| status := failed;
                   error_message := Some reason;
                   tweets_collected := yield_count st |};
     stream := yielded st;
     raised := Some reason;
     scroll_count := scrolls st;
     store := collected st |}.

Definition session_completed (st : LoopState) : SessionResult :=
  {| session := {| status := completed;
                   error_message := None;
                   tweets_collected := yield_count st |};
     stream := yielded st;
     raised := None;
     scroll_count := scrolls st;
     store := collected st |}.

Definition loop_start (c : Collector) : LoopState :=
  {| collected := c;
     scrolls := 0;
     last_count := 0;
     no_new_tweets_count := 0;
     yielded := [];
     yield_count := 0 |}.

(** [max_tweets or self.config.tweets_per_session]. *)
Definition effective_target (max_tweets : option Z) : Z :=
  match max_tweets with
  | Some n => if n =? 0 then tweets_per_session cfg else n
  | None => tweets_per_session cfg
  end.

(** The body of [scrape_for_you_feed] from the [try] on ([_setup_browser]
    returned, [context.close()] returns). *)
Definition scrape_for_you_feed (fuel : nat) (max_tweets : option Z) : option SessionResult :=
  let target := effective_target max_tweets in
  let c0 := handle_all [] (arrived (goto d)) in
  match failure (goto d) with
  | Some reason => Some (session_failed (loop_start c0) reason)
  | None =>
      let c1 := handle_all c0 (arrived (wait_for_selector d)) in
      match failure (wait_for_selector d) with
      | Some reason => Some (session_failed (loop_start c1) reason)
      | None =>
          match scroll_loop target fuel (loop_start c1) with
          | None => None
          | Some (Crashed st reason) => Some (session_failed st reason)
          | Some (Finished st) =>
              match storage_state d with
              | Some reason => Some (session_failed st reason)
              | None => Some (session_completed st)
              end
          end
      end
  end.

End Session.

(** The state a loop exit leaves. *)
Definition exit_state (e : LoopExit) : LoopState :=
  match e with
  | Finished st => st
  | Crashed st _ => st
  end.

Section LoopBody.
Context {L : PyLib}.

(** One turn of the [while] loop on its own: the exit it takes ([break] or
    an exception), or the state the next turn starts from. *)
Definition loop_body (d : Driver) (st : LoopState) : LoopExit + LoopState :=
  let it := iteration d (scrolls st) in
  let c1 := handle_all (collected st) (arrived (during_scroll it)) in
  match failure (during_scroll it) with
  | Some reason =>
      inl (Crashed {| collected := c1;
                      scrolls := scrolls st;
                      last_count := last_count st;
                      no_new_tweets_count := no_new_tweets_count st;
                      yielded := yielded st;
                      yield_count := yield_count st |} reason)
  | None =>
      let current_count := size c1 in
      if Nat.ltb (last_count st) current_count then
        let new_tweets := slice (last_count st) current_count (values c1) in
        inr {| collected := handle_all c1 (during_yield it);
               scrolls := S (scrolls st);
               last_count := current_count;
               no_new_tweets_count := 0;
               yielded := yielded st ++ new_tweets;
               yield_count := (yield_count st + List.length new_tweets)%nat |}
      else
        let no_new := S (no_new_tweets_count st) in
        let recovers := Nat.leb recovery_threshold no_new in
        let c2 := if recovers then handle_all c1 (arrived (during_recovery it)) else c1 in
        let st' := {| collected := c2;
                      scrolls := S (scrolls st);
                      last_count := last_count st;
                      no_new_tweets_count := no_new;
                      yielded := yielded st;
                      yield_count := yield_count st |} in
        match (if recovers then failure (during_recovery it) else None) with
        | Some reason => inl (Crashed st' reason)
        | None => if Nat.leb stall_threshold no_new then inl (Finished st') else inr st'
        end
  end.

(** The condition of the [while] loop. *)
Definition loop_condition (cfg : ScraperConfig) (target : Z) (st : LoopState) : bool :=
  (Z.of_nat (size (collected st)) <? target)
  && (Z.of_nat (scrolls st) <? max_scrolls cfg).

End LoopBody.

(** What was yielded is the beginning of the collector, up to the last
    progress check. *)
Definition stream_invariant (st : LoopState) : Prop :=
  (last_count st <= size (collected st))%nat
  /\ yielded st = firstn (last_count st) (values (collected st))
  /\ yield_count st = List.length (yielded st).

(** The configuration with its scroll cap replaced. *)
Definition with_max_scrolls (cfg : ScraperConfig) (cap : Z) : ScraperConfig :=
  {| max_scrolls := cap; tweets_per_session := tweets_per_session cfg |}.

(** No driver call of the session raises. *)
Definition driver_never_fails (d : Driver) : Prop :=
  failure (goto d) = None
  /\ failure (wait_for_selector d) = None
  /\ storage_state d = None
  /\ forall i, failure (during_scroll (iteration d i)) = None
                /\ failure (during_recovery (iteration d i)) = None.

Section Stalls.
Context {L : PyLib}.

(** No response intercepted during a turn of the loop adds a record. *)
Definition collector_never_grows (d : Driver) : Prop :=
  forall i c,
    size (handle_all c (arrived (during_scroll (iteration d i)))) = size c
    /\ size (handle_all c (during_yield (iteration d i))) = size c
    /\ size (handle_all c (arrived (during_recovery (iteration d i)))) = size c.

(** The collector when the loop is entered. *)
Definition collected_at_start (d : Driver) : Collector :=
  handle_all (handle_all [] (arrived (goto d))) (arrived (wait_for_selector d)).

End Stalls.

Section Runs.
Context {L : PyLib}.
Variable cfg : ScraperConfig.
Variable d : Driver.

(** The dict when the scroll of the turn that starts in [st] has returned:
    the progress check of that turn reads its size. *)
Definition after_scroll (st : LoopState) : Collector :=
  handle_all (collected st) (arrived (during_scroll (iteration d (scrolls st)))).

(** The states in which the loop tests its condition, in order: the state
    it is entered in, then the state that each turn which neither breaks
    nor raises leaves. *)
Fixpoint turns (target : Z) (fuel : nat) (st : LoopState) : list LoopState :=
  st :: match fuel with
        | O => []
        | S fuel' =>
            if loop_condition cfg target st then
              match loop_body d st with
              | inr st' => turns target fuel' st'
              | inl _ => []
              end
            else []
        end.

(** The size of the collector never increases across the scroll iterations
    of the session: at every test of the loop condition the collector has
    the size it had when the loop was entered. *)
Definition never_grows_in_run (fuel : nat) (max_tweets : option Z) : Prop :=
  Forall (fun st => size (collected st) = size (collected_at_start d))
    (turns (effective_target cfg max_tweets) fuel (loop_start (collected_at_start d))).

End Runs.

(** ** A reference instance of the library interface

    ASCII decimal literals with an optional sign, the canonical rendering
    ["Wed Oct 10 20:19:24 +0000 2018"] of the timestamp format (a date
    that exists, fields of the usual widths), the lower-case boolean words,
    and room for 900 nested calls of the walker (the default recursion limit
    is 1000).  The instance is a restriction of the libraries: what it
    takes they take, with the same value, and it refuses some strings they
    take (surrounding white space, digit separators, a decimal point
    followed by zeros, other letter cases).  The worked examples below run
    on it, with strings on which it agrees with the libraries; the theorems
    stated inside sections hold for every instance. *)

Module Reference.

Definition digit_value (c : ascii) : option Z :=
  let n := Z.of_nat (nat_of_ascii c) in
  if (48 <=? n) && (n <=? 57) then Some (n - 48) else None.

Fixpoint digits_value (acc : Z) (s : string) : option Z :=
  match s with
  | EmptyString => Some acc
  | String c rest =>
      match digit_value c with
      | Some v => digits_value (10 * acc + v) rest
      | None => None
      end
  end.

Definition natural_of_str (s : string) : option Z :=
  match s with
  | EmptyString => None
  | _ => digits_value 0 s
  end.

(** A literal of more than 4300 characters is refused: the interpreter
    limits the number of digits [int] converts. *)
Definition decimal_of_str (s : string) : option Z :=
  if Nat.leb (String.length s) 4300 then
    match s with
    | String "-" rest => option_map Z.opp (natural_of_str rest)
    | String "+" rest => natural_of_str rest
    | _ => natural_of_str s
    end
  else None.

Fixpoint split_on (sep : ascii) (s : string) : list string :=
  match s with
  | EmptyString => [EmptyString]
  | String c rest =>
      if Ascii.eqb c sep then EmptyString :: split_on sep rest
      else match split_on sep rest with
           | [] => [String c EmptyString]
           | word :: more => String c word :: more
           end
  end.

Definition weekdays : list string :=
  ["Mon"; "Tue"; "Wed"; "Thu"; "Fri"; "Sat"; "Sun"].

Definition months : list string :=
  ["Jan"; "Feb"; "Mar"; "Apr"; "May"; "Jun"; "Jul"; "Aug"; "Sep"; "Oct"; "Nov"; "Dec"].

Fixpoint position (s : string) (l : list string) (from : Z) : option Z :=
  match l with
  | [] => None
  | x :: rest => if String.eqb s x then Some from else position s rest (from + 1)
  end.

Definition in_range (lo hi : Z) (v : option Z) : option Z :=
  match v with
  | Some n => if (lo <=? n) && (n <=? hi) then Some n else None
  | None => None
  end.

Definition zone_minutes (s : string) : option Z :=
  match s with
  | String sign (String h1 (String h2 (String m1 (String m2 EmptyString)))) =>
      match in_range 0 23 (natural_of_str (String h1 (String h2 EmptyString))),
            in_range 0 59 (natural_of_str (String m1 (String m2 EmptyString))) with
      | Some h, Some m =>
          if Ascii.eqb sign "+" then Some (60 * h + m)
          else if Ascii.eqb sign "-" then Some (- (60 * h + m))
          else None
      | _, _ => None
      end
  | _ => None
  end.

(** A field of [lo] to [hi] decimal digits with a value from [low] to
    [high]. *)
Definition field (lo hi : nat) (low high : Z) (s : string) : option Z :=
  if Nat.leb lo (String.length s) && Nat.leb (String.length s) hi
  then in_range low high (natural_of_str s)
  else None.

Definition leap_year (y : Z) : bool :=
  ((y mod 4 =? 0) && negb (y mod 100 =? 0)) || (y mod 400 =? 0).

Definition days_in_month (y m : Z) : Z :=
  if m =? 2 then (if leap_year y then 29 else 28)
  else if (m =? 4) || (m =? 6) || (m =? 9) || (m =? 11) then 30
  else 31.

Definition canonical_strptime (s : string) : option datetime :=
  match split_on " " s with
  | [wd; mon; day; time; zone; year] =>
      match position wd weekdays 1, position mon months 1,
            field 1 2 1 31 day, split_on ":" time,
            zone_minutes zone, field 4 4 1 9999 year with
      | Some _, Some m, Some dd, [hh; mm; ss], Some off, Some y =>
          match field 1 2 0 23 hh, field 1 2 0 59 mm, field 1 2 0 59 ss with
          | Some h, Some mi, Some sec =>
              if dd <=? days_in_month y m then
                Some {| dt_year := y; dt_month := m; dt_day := dd;
                        dt_hour := h; dt_minute := mi; dt_second := sec;
                        dt_utcoffset_minutes := off |}
              else None
          | _, _, _ => None
          end
      | _, _, _, _, _, _ => None
      end
  | _ => None
  end.

Definition bool_of_word (s : string) : option bool :=
  if existsb (String.eqb s) ["1"; "on"; "t"; "true"; "y"; "yes"] then Some true
  else if existsb (String.eqb s) ["0"; "off"; "f"; "false"; "n"; "no"] then Some false
  else None.

#[export] Instance lib : PyLib := {
  strptime := canonical_strptime;
  int_of_str := decimal_of_str;
  lax_int_of_str := decimal_of_str;
  lax_bool_of_str := bool_of_word;
  recursion_room := 900
}.

End Reference.

Export Reference.

(** ** Shapes of candidates and payloads

    Predicates on the input tree that the statements below refer to.  They
    are written from the wording of the specification and from the types the
    code expects of each field, independently of the functions above. *)

(** The value at [k], or the default: what [.get(k, d)] denotes on a dict. *)
Definition get_or (k : string) (kvs : list (string * json)) (d : json) : json :=
  match dict_lookup k kvs with
  | Some v => v
  | None => d
  end.

Definition dict_items (v : json) : list (string * json) :=
  match v with
  | JDict kvs => kvs
  | _ => []
  end.

Definition is_str (v : json) : bool :=
  match v with JStr _ => true | _ => false end.

Definition is_int (v : json) : bool :=
  match v with JInt _ => true | _ => false end.

Definition is_bool (v : json) : bool :=
  match v with JBool _ => true | _ => false end.

Definition is_str_or_null (v : json) : bool :=
  match v with JStr _ | JNull => true | _ => false end.

(** The map the legacy-style fields are read from: the [legacy] value when
    the key is present, the candidate itself otherwise. *)
Definition legacy_of (obj : json) : json :=
  get_or "legacy" (dict_items obj) obj.

(** The [extended_entities] value is a map that has a [media] key. *)
Definition media_key_present (obj : json) : bool :=
  match dict_lookup "extended_entities" (dict_items (legacy_of obj)) with
  | Some (JDict entities) => dict_has "media" entities
  | _ => false
  end.

(** The [media] array is present and has at least one entry. *)
Definition media_array_nonempty (obj : json) : bool :=
  match dict_lookup "extended_entities" (dict_items (legacy_of obj)) with
  | Some (JDict entities) =>
      match dict_lookup "media" entities with
      | Some (JList (_ :: _)) => true
      | _ => false
      end
  | _ => false
  end.

Section Shapes.
Context {L : PyLib}.

Definition media_entry_ok (media : json) : bool :=
  is_dict media && is_str (get_or "media_url_https" (dict_items media) (JStr "")).

Definition entities_ok (entities : json) : bool :=
  is_dict entities
  && match dict_lookup "media" (dict_items entities) with
     | None => true
     | Some (JList entries) => forallb media_entry_ok entries
     | Some _ => false
     end.

(** A view count is an integer, or a string [int] accepts. *)
Definition count_ok (count : json) : bool :=
  match count with
  | JInt _ => true
  | JStr s => match int_of_str s with Some _ => true | None => false end
  | _ => false
  end.

Definition views_ok (kvs : list (string * json)) : bool :=
  match dict_lookup "views" kvs with
  | None => true
  | Some block => is_dict block && count_ok (get_or "count" (dict_items block) (JInt 0))
  end.

Definition author_ok (kvs : list (string * json)) : bool :=
  let core := get_or "core" kvs (JDict []) in
  let wrapper := get_or "user_results" (dict_items core) (JDict []) in
  let user := get_or "result" (dict_items wrapper) (JDict []) in
  let user_legacy := get_or "legacy" (dict_items user) (JDict []) in
  is_dict core && is_dict wrapper && is_dict user && is_dict user_legacy
  && is_str (get_or "rest_id" (dict_items user) (JStr ""))
  && is_str (get_or "screen_name" (dict_items user_legacy) (JStr ""))
  && is_str (get_or "name" (dict_items user_legacy) (JStr "")).

Definition legacy_ok (legacy : list (string * json)) : bool :=
  is_str_or_null (get_or "id_str" legacy JNull)
  && is_str (get_or "full_text" legacy (JStr ""))
  && is_int (get_or "favorite_count" legacy (JInt 0))
  && is_int (get_or "retweet_count" legacy (JInt 0))
  && is_int (get_or "reply_count" legacy (JInt 0))
  && is_str (get_or "created_at" legacy (JStr ""))
  && entities_ok (get_or "extended_entities" legacy (JDict []))
  && is_bool (get_or "retweeted" legacy (JBool false))
  && is_str_or_null (get_or "in_reply_to_status_id_str" legacy JNull).

(** Every field the normalizer consults has, where present, the JSON type
    the code expects of it: maps for the nested blocks, strings for the
    identifiers, names, text and timestamp, integers for the counters, a
    boolean for the reshare flag, a list of maps for the media, an integer or
    a numeric string for the view count. *)
Definition expected_shape (obj : json) : bool :=
  match obj with
  | JDict kvs =>
      is_dict (legacy_of obj)
      && is_str_or_null (get_or "rest_id" kvs JNull)
      && author_ok kvs
      && views_ok kvs
      && legacy_ok (dict_items (legacy_of obj))
  | _ => false
  end.

(** The records of the candidates that normalize, in order. *)
Definition accepted (candidates : list json) : list Tweet :=
  flat_map (fun candidate =>
              match _parse_tweet_object candidate with
              | Ok (Some tweet) => [tweet]
              | _ => []
              end) candidates.

End Shapes.









(** The children the walker recurses into. *)
Definition children (v : json) : list json :=
  match v with
  | JDict kvs => map snd kvs
  | JList items => items
  | _ => []
  end.

(** ** Worked inputs *)

Definition feed_url : string :=
  "https://x.com/i/api/graphql/abc123/HomeTimeline".

(** A result object in the results-wrapper layout. *)
Definition tweet_result (id body : string) : json :=
  JDict [("rest_id", JStr id); ("legacy", JDict [("full_text", JStr body)])].

Definition entry (result : json) : json :=
  JDict [("entryId", JStr "tweet");
         ("content", JDict [("itemContent", JDict [("tweet_results", JDict [("result", result)])])])].

Definition timeline (entries : list json) : json :=
  JDict [("data", JDict [("home", JDict [("home_timeline_urt",
    JDict [("instructions", JList [JDict [("entries", JList entries)]])])])])].

(** A result object with an identifier and no text. *)
Definition no_text_result : json := JDict [("rest_id", JStr "9")].

Definition payload_A : json :=
  timeline [entry (tweet_result "1" "one"); entry (tweet_result "2" "two");
            entry no_text_result; entry (tweet_result "3" "three")].

Definition payload_B : json :=
  timeline [entry (tweet_result "1" "one"); entry (tweet_result "4" "four")].

Definition payload_seven : json :=
  timeline (map (fun id => entry (tweet_result id "text")) ["1"; "2"; "3"; "4"; "5"; "6"; "7"]).

(** The record a [tweet_result id body] normalizes to. *)
Definition plain_tweet (id body : string) : Tweet :=
  {| tweet_id := id; user_id := ""; username := ""; display_name := "";
     text := body; created_at := None; likes := 0; retweets := 0; replies := 0;
     views := None; is_retweet := false; is_reply := false; is_quote := false;
     has_media := false; media_urls := [];
     tweet_url := "https://x.com//status/" ++ id;
     reply_to_tweet_id := None; feed_type := "for_you" |}.

Definition feed (payload : json) : Response :=
  {| url := feed_url; body := Some payload |}.

Definition quiet : Awaited := {| arrived := []; failure := None |}.

Definition delivers (responses : list Response) : Awaited :=
  {| arrived := responses; failure := None |}.

Definition breaks (reason : string) : Awaited :=
  {| arrived := []; failure := Some reason |}.

Definition turn (during : Awaited) : Iteration :=
  {| during_scroll := during; during_yield := []; during_recovery := quiet |}.

(** A driver whose page loads, whose scrolls follow [script] and are
    uneventful afterwards. *)
Definition scripted (script : list Iteration) : Driver :=
  {| goto := quiet;
     wait_for_selector := quiet;
     iteration := fun i => nth i script (turn quiet);
     storage_state := None |}.

(** Candidates with one field of an unexpected shape each. *)
Definition bad_legacy : json :=
  JDict [("rest_id", JStr "1"); ("legacy", JStr "oops")].

Definition bad_views_count : json :=
  JDict [("rest_id", JStr "1"); ("views", JDict [("count", JStr "n/a")]);
         ("legacy", JDict [("full_text", JStr "hi")])].

Definition bad_created_at : json :=
  JDict [("rest_id", JStr "1");
         ("legacy", JDict [("full_text", JStr "hi"); ("created_at", JInt 1539202764)])].

Definition bad_media_entry : json :=
  JDict [("rest_id", JStr "1");
         ("legacy", JDict [("full_text", JStr "hi");
                           ("extended_entities", JDict [("media", JList [JStr "pic"])])])].

(** A candidate whose media array is present and empty. *)
Definition empty_media : json :=
  JDict [("rest_id", JStr "1");
         ("legacy", JDict [("full_text", JStr "hi");
                           ("extended_entities", JDict [("media", JList [])])])].

(** A candidate in the results-wrapper layout with every consulted field. *)
Definition full_candidate : json :=
  JDict [("rest_id", JStr "1050118621198921728");
         ("core", JDict [("user_results", JDict [("result",
            JDict [("rest_id", JStr "6253282");
                   ("legacy", JDict [("screen_name", JStr "api"); ("name", JStr "API")])])])]);
         ("views", JDict [("count", JStr "1234")]);
         ("quoted_status_result", JDict []);
         ("legacy", JDict [("id_str", JStr "1050118621198921728");
                           ("full_text", JStr "To make room for more expression");
                           ("favorite_count", JInt 12);
                           ("retweet_count", JInt 3);
                           ("reply_count", JInt 1);
                           ("created_at", JStr "Wed Oct 10 20:19:24 +0000 2018");
                           ("retweeted", JBool false);
                           ("in_reply_to_status_id_str", JNull);
                           ("extended_entities", JDict [("media",
                              JList [JDict [("media_url_https", JStr "https://pbs.twimg.com/media/a.jpg")]])])])].



(** A payload with one results wrapper and a node whose [legacy] is null. *)
Definition payload_null_legacy : json :=
  JDict [("a", entry (tweet_result "1" "one")); ("b", JDict [("legacy", JNull)])].


(** A payload with a candidate on which the normalizer raises, followed by
    one that normalizes. *)
Definition payload_mixed : json :=
  timeline [entry bad_legacy; entry (tweet_result "1" "one")].

(** Drivers for the worked sessions. *)
Definition two_payload_driver : Driver :=
  scripted [turn (delivers [feed payload_A]); turn (delivers [feed payload_B])].

Definition seven_at_once_driver : Driver :=
  scripted [turn (delivers [feed payload_seven])].




(** A driver whose page load brings payload A, and whose every scroll
    brings payload A again. *)
Definition redelivering_driver : Driver :=
  {| goto := quiet;
     wait_for_selector := delivers [feed payload_A];
     iteration := fun _ => turn (delivers [feed payload_A]);
     storage_state := None |}.

(** A driver that never brings a response, and whose third scroll
    raises. *)
Definition stalled_then_fails : Driver :=
  scripted [turn quiet; turn quiet; turn (breaks "Target closed")].

(** ** Nodes of a payload, well-formed collectors *)

(** Every node of the tree: the value itself and, recursively, the values
    of its map entries and the elements of its lists. *)
Fixpoint nodes (v : json) : list json :=
  v :: match v with
       | JDict kvs =>
           (fix over (l : list (string * json)) : list json :=
              match l with
              | [] => []
              | (_, value) :: rest => nodes value ++ over rest
              end) kvs
       | JList items =>
           (fix over (l : list json) : list json :=
              match l with
              | [] => []
              | item :: rest => nodes item ++ over rest
              end) items
       | _ => []
       end.

(** The invariant of the dict [_collected_tweets]: one entry per
    identifier, each stored under its own [tweet_id]. *)
Definition collector_wf (c : Collector) : Prop :=
  NoDup (keys c) /\ Forall (fun entry => fst entry = tweet_id (snd entry)) c.

(** The loop [for tweet in tweets: ...] of the handler. *)
Definition add_all (tweets : list Tweet) (c : Collector) : Collector :=
  fold_left (fun acc tweet => fst (collector_add acc tweet)) tweets c.

(** ** Fields of a candidate *)

(** The value the normalizer takes as identifier: the top-level [rest_id]
    when it is truthy, the legacy [id_str] otherwise. *)
Definition identifier_of (obj : json) : json :=
  if truthy (get_or "rest_id" (dict_items obj) JNull)
  then get_or "rest_id" (dict_items obj) JNull
  else get_or "id_str" (dict_items (legacy_of obj)) JNull.

Definition body_text_of (obj : json) : json :=
  get_or "full_text" (dict_items (legacy_of obj)) (JStr "").

(** The library with another timestamp parser. *)
Definition with_strptime (L : PyLib) (parser : string -> option datetime) : PyLib :=
  {| strptime := parser;
     int_of_str := @int_of_str L;
     lax_int_of_str := @lax_int_of_str L;
     lax_bool_of_str := @lax_bool_of_str L;
     recursion_room := @recursion_room L |}.

(** Two outcomes of the normalizer that differ at most in the timestamp of
    the record. *)
Definition same_up_to_timestamp (r1 r2 : result (option Tweet)) : Prop :=
  match r1, r2 with
  | Ok (Some t1), Ok (Some t2) =>
      tweet_id t1 = tweet_id t2 /\ user_id t1 = user_id t2
      /\ username t1 = username t2 /\ display_name t1 = display_name t2
      /\ text t1 = text t2 /\ likes t1 = likes t2 /\ retweets t1 = retweets t2
      /\ replies t1 = replies t2 /\ views t1 = views t2
      /\ is_retweet t1 = is_retweet t2 /\ is_reply t1 = is_reply t2
      /\ is_quote t1 = is_quote t2 /\ has_media t1 = has_media t2
      /\ media_urls t1 = media_urls t2 /\ tweet_url t1 = tweet_url t2
      /\ reply_to_tweet_id t1 = reply_to_tweet_id t2 /\ feed_type t1 = feed_type t2
  | Ok None, Ok None => True
  | Raise e1, Raise e2 => e1 = e2
  | _, _ => False
  end.

(** The object at [core -> user_results -> result], an empty map for every
    key that is missing on the way. *)
Definition author_of (obj : json) : json :=
  get_or "result"
    (dict_items (get_or "user_results"
                   (dict_items (get_or "core" (dict_items obj) (JDict []))) (JDict [])))
    (JDict []).

Definition author_legacy_of (obj : json) : json :=
  get_or "legacy" (dict_items (author_of obj)) (JDict []).

(** The entries of the [media] array, none when there is no array. *)
Definition media_entries (obj : json) : list json :=
  match dict_lookup "extended_entities" (dict_items (legacy_of obj)) with
  | Some (JDict entities) =>
      match dict_lookup "media" entities with
      | Some (JList entries) => entries
      | _ => []
      end
  | _ => []
  end.

(** ** The sibling generators: [scrape_user_timeline], [scrape_search] *)

(** [tweet.feed_type = tag]: the record is the object the dict holds, so the
    assignment shows in the dict as well. *)
Definition set_feed_type (tag : string) (t : Tweet) : Tweet :=
  {| tweet_id := tweet_id t;
     user_id := user_id t;
     username := username t;
     display_name := display_name t;
     text := text t;
     created_at := created_at t;
     likes := likes t;
     retweets := retweets t;
     replies := replies t;
     views := views t;
     is_retweet := is_retweet t;
     is_reply := is_reply t;
     is_quote := is_quote t;
     has_media := has_media t;
     media_urls := media_urls t;
     tweet_url := tweet_url t;
     reply_to_tweet_id := reply_to_tweet_id t;
     feed_type := tag |}.

(** The dict after the records at positions [a], ..., [b - 1] were
    assigned the tag. *)
Definition retag_entries (tag : string) (a b : nat) (c : Collector) : Collector :=
  firstn a c
  ++ map (fun entry => (fst entry, set_feed_type tag (snd entry))) (slice a b c)
  ++ skipn b c.

Record TimelineState : Type := {
  t_collected : Collector;
  t_scrolls : nat;
  t_last_count : nat;
  t_yielded : list Tweet
}.

(** The records yielded so far are the beginning of the dict, and carry the
    tag. *)
Definition timeline_invariant (tag : string) (st : TimelineState) : Prop :=
  (t_last_count st <= size (t_collected st))%nat
  /\ t_yielded st = firstn (t_last_count st) (values (t_collected st))
  /\ Forall (fun t => feed_type t = tag) (t_yielded st)
  /\ collector_wf (t_collected st).

Inductive TimelineExit : Type :=
| Exhausted (st : TimelineState)
| Interrupted (st : TimelineState) (reason : string).

Definition timeline_exit_state (e : TimelineExit) : TimelineState :=
  match e with
  | Exhausted st => st
  | Interrupted st _ => st
  end.

(** What the caller of one of the two generators observes. *)
Record TimelineResult : Type := {
  visited : string;
  tl_stream : list Tweet;
  tl_raised : option string;
  tl_scroll_count : nat;
  tl_store : Collector
}.

(** [query.replace(" ", "%20")]. *)
Fixpoint encode_spaces (query : string) : string :=
  match query with
  | EmptyString => EmptyString
  | String c rest =>
      if Ascii.eqb c " " then String "%" (String "2" (String "0" (encode_spaces rest)))
      else String c (encode_spaces rest)
  end.

Definition search_url (query : string) : string :=
  "https://x.com/search?q=" ++ encode_spaces query ++ "&src=typed_query&f=live".

Definition profile_url (handle : string) : string :=
  "https://x.com/" ++ handle.

Section Timelines.
Context {L : PyLib}.
Variable cfg : ScraperConfig.
Variable d : Driver.

(** The [while] loop the two generators share: no stall counter, and each
    new record is tagged before it is yielded. *)
Fixpoint timeline_loop (tag : string) (max_tweets : Z) (fuel : nat) (st : TimelineState)
  : option TimelineExit :=
  if (Z.of_nat (size (t_collected st)) <? max_tweets)
     && (Z.of_nat (t_scrolls st) <? max_scrolls cfg)
  then
    match fuel with
    | O => None
    | S fuel' =>
        let it := iteration d (t_scrolls st) in
        let c1 := handle_all (t_collected st) (arrived (during_scroll it)) in
        match failure (during_scroll it) with
        | Some reason =>
            Some (Interrupted {| t_collected := c1;
                             t_scrolls := t_scrolls st;
                             t_last_count := t_last_count st;
                             t_yielded := t_yielded st |} reason)
        | None =>
            let current_count := size c1 in
            if Nat.ltb (t_last_count st) current_count then
              let tagged := retag_entries tag (t_last_count st) current_count c1 in
              let new_tweets := slice (t_last_count st) current_count (values tagged) in
              timeline_loop tag max_tweets fuel'
                {| t_collected := handle_all tagged (during_yield it);
                   t_scrolls := S (t_scrolls st);
                   t_last_count := current_count;
                   t_yielded := t_yielded st ++ new_tweets |}
            else
              timeline_loop tag max_tweets fuel'
                {| t_collected := c1;
                   t_scrolls := S (t_scrolls st);
                   t_last_count := t_last_count st;
                   t_yielded := t_yielded st |}
        end
    end
  else Some (Exhausted st).

Definition timeline_start (c : Collector) : TimelineState :=
  {| t_collected := c; t_scrolls := 0; t_last_count := 0; t_yielded := [] |}.

Definition timeline_interrupted (url : string) (st : TimelineState) (reason : string)
  : TimelineResult :=
  {| visited := url;
     tl_stream := t_yielded st;
     tl_raised := Some reason;
     tl_scroll_count := t_scrolls st;
     tl_store := t_collected st |}.

(** The body the two generators share from the [try] on: navigate, wait
    for the first tweet, scroll and yield; an exception of the driver leaves
    the generator as it is. *)
Definition scrape_timeline (url tag : string) (fuel : nat) (max_tweets : Z)
  : option TimelineResult :=
  let c0 := handle_all [] (arrived (goto d)) in
  match failure (goto d) with
  | Some reason => Some (timeline_interrupted url (timeline_start c0) reason)
  | None =>
      let c1 := handle_all c0 (arrived (wait_for_selector d)) in
      match failure (wait_for_selector d) with
      | Some reason => Some (timeline_interrupted url (timeline_start c1) reason)
      | None =>
          match timeline_loop tag max_tweets fuel (timeline_start c1) with
          | None => None
          | Some (Interrupted st reason) => Some (timeline_interrupted url st reason)
          | Some (Exhausted st) =>
              Some {| visited := url;
                      tl_stream := t_yielded st;
                      tl_raised := None;
                      tl_scroll_count := t_scrolls st;
                      tl_store := t_collected st |}
          end
      end
  end.

Definition scrape_user_timeline (handle : string) (fuel : nat) (max_tweets : Z)
  : option TimelineResult :=
  scrape_timeline (profile_url handle) ("user_" ++ handle) fuel max_tweets.

Definition scrape_search (query : string) (fuel : nat) (max_tweets : Z)
  : option TimelineResult :=
  scrape_timeline (search_url query) ("search_" ++ query) fuel max_tweets.

End Timelines.


(** The sum of the three counters of a record. *)
Definition engagement (t : Tweet) : Z := likes t + retweets t + replies t.

(** ** Authentication cookies: [_add_authentication] *)












(** ** Threads: [TweetThread.calculate_engagement] *)

Record TweetThread : Type := {
  thread_id : string;
  tweets : list Tweet;
  author_username : string;
  total_engagement : Z
}.

(** The method returns the total and stores it in the thread. *)
Definition calculate_engagement (thread : TweetThread) : Z * TweetThread :=
  let total := fold_left Z.add
                 (map (fun t => likes t + retweets t + replies t) (tweets thread)) 0 in
  (total, {| thread_id := thread_id thread;
             tweets := tweets thread;
             author_username := author_username thread;
             total_engagement := total |}).

(** ** The convenience function [scrape_for_you] *)

(** What a call leaves its caller with: the list it returns, or the
    exception that went through it. *)
Inductive Returned : Type :=
| Tweets (tweets : list Tweet)
| Propagated (reason : string).

(** [ScraperConfig(auth_token=..., ct0_token=..., tweets_per_session=max_tweets)]:
    the scroll cap keeps its default. *)
Definition quick_config (max_tweets : Z) : ScraperConfig :=
  {| max_scrolls := 50; tweets_per_session := max_tweets |}.

Section Convenience.
Context {L : PyLib}.

(** The records are appended to a local list as they are yielded; an
    exception of the generator leaves the function before its [return]. *)
Definition scrape_for_you (d : Driver) (fuel : nat) (max_tweets : Z) : option Returned :=
  match scrape_for_you_feed (quick_config max_tweets) d fuel (Some max_tweets) with
  | None => None
  | Some r =>
      match raised r with
      | Some reason => Some (Propagated reason)
      | None => Some (Tweets (stream r))
      end
  end.

End Convenience.

(** * Properties *)


(** ** The result monad and the Python operations *)

Lemma bind_ok_inv {A B : Type} (r : result A) (k : A -> result B) (b : B) :
  bind r k = Ok b -> exists a, r = Ok a /\ k a = Ok b.
Proof.
  destruct r as [a | e]; simpl; intros H; [ exists a; auto | discriminate ].
Qed.

Lemma py_get_dict (kvs : list (string * json)) (k : string) (d : json) :
  py_get (JDict kvs) k d = Ok (get_or k kvs d).
Proof.
  unfold py_get, get_or. destruct (dict_lookup k kvs); reflexivity.
Qed.

Lemma py_get_ok_inv (o : json) (k : string) (d v : json) :
  py_get o k d = Ok v -> exists kvs, o = JDict kvs /\ v = get_or k kvs d.
Proof.
  destruct o; simpl; try discriminate.
  intros H. exists kvs. split; [ reflexivity | ].
  unfold get_or. destruct (dict_lookup k kvs); congruence.
Qed.

Lemma is_dict_inv (v : json) : is_dict v = true -> exists kvs, v = JDict kvs.
Proof. destruct v; try discriminate. eauto. Qed.

Lemma is_str_inv (v : json) : is_str v = true -> exists s, v = JStr s.
Proof. destruct v; try discriminate. eauto. Qed.

Lemma is_int_inv (v : json) : is_int v = true -> exists z, v = JInt z.
Proof. destruct v; try discriminate. eauto. Qed.

Lemma is_bool_inv (v : json) : is_bool v = true -> exists b, v = JBool b.
Proof. destruct v; try discriminate. eauto. Qed.

Lemma dict_has_lookup (k : string) (kvs : list (string * json)) :
  dict_has k kvs = true <-> exists v, dict_lookup k kvs = Some v.
Proof.
  unfold dict_has. destruct (dict_lookup k kvs) as [v | ].
  - split; eauto.
  - split; [ discriminate | intros [v H]; discriminate ].
Qed.

Ltac split_andb :=
  repeat match goal with
         | H : _ && _ = true |- _ => apply andb_prop in H; destruct H
         end.

Section NormalizerShape.
Context {L : PyLib}.

Lemma views_block_ok (kvs : list (string * json)) :
  views_ok kvs = true ->
  exists v,
    (if dict_has "views" kvs then
       views_block <- py_getitem (JDict kvs) "views" ;;
       count <- py_get views_block "count" (JInt 0) ;;
       n <- py_int count ;;
       Ok (Some n)
     else Ok None) = Ok v.
Proof.
  unfold views_ok, dict_has, py_getitem.
  destruct (dict_lookup "views" kvs) as [block | ]; [ | eauto ].
  intros H. split_andb.
  destruct (is_dict_inv _ H) as [b ->]. cbn [bind dict_items] in *.
  rewrite py_get_dict. cbn [bind].
  destruct (get_or "count" b (JInt 0)); simpl in *; try discriminate; eauto.
  destruct (int_of_str s); simpl; [ eauto | discriminate ].
Qed.

Lemma created_at_ok (legacy : list (string * json)) :
  is_str (get_or "created_at" legacy (JStr "")) = true ->
  exists v,
    (if dict_has "created_at" legacy then
       raw <- py_getitem (JDict legacy) "created_at" ;;
       parse_created_at raw
     else Ok None) = Ok v.
Proof.
  unfold get_or, dict_has, py_getitem.
  destruct (dict_lookup "created_at" legacy) as [raw | ]; [ | eauto ].
  intros H. destruct (is_str_inv _ H) as [s ->]. simpl. eauto.
Qed.

Lemma media_entries_ok (entries : list json) :
  forallb media_entry_ok entries = true ->
  exists urls,
    map_result (fun media => py_get media "media_url_https" (JStr "")) entries = Ok urls
    /\ forallb is_str urls = true.
Proof.
  induction entries as [ | media rest IH ]; simpl; intros H.
  - exists []. auto.
  - split_andb. destruct (IH H0) as [urls [E Hs]].
    unfold media_entry_ok in H. split_andb.
    destruct (is_dict_inv _ H) as [m ->]. cbn [dict_items] in *.
    rewrite py_get_dict. cbn [bind]. rewrite E. cbn [bind].
    eexists. split; [ reflexivity | ]. simpl. rewrite H1. exact Hs.
Qed.

Lemma media_block_ok (entities : list (string * json)) :
  entities_ok (JDict entities) = true ->
  exists urls,
    (if dict_has "media" entities then
       media_list <- py_getitem (JDict entities) "media" ;;
       entries <- py_iter media_list ;;
       map_result (fun media => py_get media "media_url_https" (JStr "")) entries
     else Ok []) = Ok urls
    /\ forallb is_str urls = true.
Proof.
  unfold entities_ok, dict_has, py_getitem. simpl.
  destruct (dict_lookup "media" entities) as [media_list | ]; [ | exists []; auto ].
  destruct media_list; try discriminate.
  intros H. simpl. apply media_entries_ok. exact H.
Qed.

Lemma validate_urls_ok (urls : list json) :
  forallb is_str urls = true -> exists l, map_result validate_str urls = Ok l.
Proof.
  induction urls as [ | u rest IH ]; simpl; intros H; [ eauto | ].
  split_andb. destruct (is_str_inv _ H) as [s ->]. destruct (IH H0) as [l E].
  simpl. rewrite E. simpl. eauto.
Qed.

End NormalizerShape.

Ltac normalizer_steps :=
  repeat (rewrite ?py_get_dict; cbn [bind];
          repeat match goal with
                 | E : ?t = JDict _ |- context [?t] => rewrite E
                 end).

Section NormalizerTotal.
Context {L : PyLib}.

Lemma Tweet_new_ok (a : TweetArgs) :
  is_str (a_tweet_id a) = true ->
  is_str (a_user_id a) = true ->
  is_str (a_username a) = true ->
  is_str (a_display_name a) = true ->
  is_str (a_text a) = true ->
  is_int (a_likes a) = true ->
  is_int (a_retweets a) = true ->
  is_int (a_replies a) = true ->
  is_bool (a_is_retweet a) = true ->
  forallb is_str (a_media_urls a) = true ->
  is_str_or_null (a_reply_to_tweet_id a) = true ->
  exists t, Tweet_new a = Ok t.
Proof.
  intros H1 H2 H3 H4 H5 H6 H7 H8 H9 H10 H11. unfold Tweet_new.
  destruct (is_str_inv _ H1) as [s1 ->].
  destruct (is_str_inv _ H2) as [s2 ->].
  destruct (is_str_inv _ H3) as [s3 ->].
  destruct (is_str_inv _ H4) as [s4 ->].
  destruct (is_str_inv _ H5) as [s5 ->].
  destruct (is_int_inv _ H6) as [z1 ->].
  destruct (is_int_inv _ H7) as [z2 ->].
  destruct (is_int_inv _ H8) as [z3 ->].
  destruct (is_bool_inv _ H9) as [b ->].
  destruct (validate_urls_ok _ H10) as [urls ->].
  cbn [bind validate_str validate_int validate_bool].
  destruct (a_reply_to_tweet_id a); try discriminate; simpl; eauto.
Qed.

Lemma truthy_str_or_null (v : json) :
  is_str_or_null v = true -> truthy v = true -> is_str v = true.
Proof. destruct v; simpl; congruence. Qed.

Lemma is_str_get_or_default (k : string) (kvs : list (string * json)) (d d' : json) :
  is_str (get_or k kvs d) = true -> is_str d' = true -> is_str (get_or k kvs d') = true.
Proof. unfold get_or. destruct (dict_lookup k kvs); auto. Qed.

(** The normalizer returns on a candidate of the expected shape: every
    [.get] meets a map, every conversion and validation meets a value of its
    type. *)
Lemma normalizer_returns_on_expected_shape (obj : json) :
  expected_shape obj = true -> exists r, _parse_tweet_object obj = Ok r.
Proof.
  destruct obj as [ | | | | | | kvs ]; try discriminate.
  unfold expected_shape, legacy_of. cbn [dict_items].
  intros H. repeat rewrite andb_true_iff in H.
  destruct H as [[[[Hlegacy Hrest] Hauthor] Hviews] Hfields].
  destruct (is_dict_inv _ Hlegacy) as [legacy Elegacy].
  rewrite Elegacy in Hfields. cbn [dict_items] in Hfields.
  unfold author_ok in Hauthor. cbv zeta in Hauthor.
  repeat rewrite andb_true_iff in Hauthor.
  destruct Hauthor as [[[[[[Hcore Hwrapper] Huser] Hul] Huid] Hscreen] Hname].
  destruct (is_dict_inv _ Hcore) as [core Ecore].
  rewrite Ecore in *. cbn [dict_items] in *.
  destruct (is_dict_inv _ Hwrapper) as [wrapper Ewrapper].
  rewrite Ewrapper in *. cbn [dict_items] in *.
  destruct (is_dict_inv _ Huser) as [user Euser].
  rewrite Euser in *. cbn [dict_items] in *.
  destruct (is_dict_inv _ Hul) as [user_legacy Eul].
  rewrite Eul in *. cbn [dict_items] in *.
  unfold legacy_ok in Hfields. repeat rewrite andb_true_iff in Hfields.
  destruct Hfields
    as [[[[[[[[Hid_str Htext] Hlikes] Hretweets] Hreplies] Hcreated] Hentities] Hflag] Hreply].
  unfold _parse_tweet_object. normalizer_steps.
  assert (Hid : exists tid,
             (if truthy (get_or "rest_id" kvs JNull)
              then Ok (get_or "rest_id" kvs JNull)
              else Ok (get_or "id_str" legacy JNull)) = Ok tid
             /\ (truthy tid = true -> is_str tid = true)).
  { destruct (truthy (get_or "rest_id" kvs JNull)) eqn:Htruthy; eexists; split;
      try reflexivity; intros; apply truthy_str_or_null; auto. }
  destruct Hid as [tid [-> Hid]]. cbn [bind].
  destruct (truthy tid); [ | eexists; reflexivity ].
  destruct (truthy (get_or "full_text" legacy (JStr ""))); [ | eexists; reflexivity ].
  cbn [negb py_contains bind].
  destruct (views_block_ok kvs Hviews) as [views ->]. cbn [bind].
  destruct (created_at_ok legacy Hcreated) as [created ->]. cbn [bind].
  assert (Hent : is_dict (get_or "extended_entities" legacy (JDict [])) = true).
  { unfold entities_ok in Hentities. apply andb_prop in Hentities. tauto. }
  destruct (is_dict_inv _ Hent) as [entities Eent]. rewrite Eent in *.
  cbn [py_contains bind].
  destruct (media_block_ok entities Hentities) as [urls [-> Hurls]]. cbn [bind].
  assert (Hrt : exists flag,
             (if dict_has "retweeted_status_result" kvs
              then Ok (JBool true)
              else Ok (get_or "retweeted" legacy (JBool false))) = Ok flag
             /\ is_bool flag = true).
  { destruct (dict_has "retweeted_status_result" kvs); eexists; split;
      try reflexivity; auto. }
  destruct Hrt as [flag [-> Hflagged]]. cbn [bind].
  match goal with
  | |- exists r, bind (Tweet_new ?a) _ = _ =>
      destruct (Tweet_new_ok a) as [t ->]; cbn; auto
  end.
  - apply (is_str_get_or_default _ _ (JStr "")); auto.
  - eexists; reflexivity.
Qed.

(** C1, as the code has it: on every candidate map whose consulted fields
    have, where present, the JSON types the code expects of them (maps for
    the nested blocks, strings for identifiers, names, text and timestamp,
    integers for the counters, a boolean reshare flag, a list of maps for
    the media, an integer or numeric string for the view count) the
    normalizer does not raise: it returns a record or a rejection. *)
Theorem normalizer_total_on_expected_shape (obj : json) :
  expected_shape obj = true ->
  exists r, _parse_tweet_object obj = Ok r /\ raises (_parse_tweet_object obj) = false.
Proof.
  intros Hshape.
  destruct (normalizer_returns_on_expected_shape obj Hshape) as [r Hr].
  exists r. rewrite Hr. split; reflexivity.
Qed.

End NormalizerTotal.

Ltac bind_inv H :=
  repeat match type of H with
         | bind ?r _ = Ok _ =>
             let a := fresh "a" in
             let E := fresh "E" in
             destruct r as [a | ] eqn:E; cbn [bind] in H; [ | discriminate H ]
         end.

Section NormalizerInversion.
Context {L : PyLib}.

Lemma validate_str_inv (v : json) (s : string) :
  validate_str v = Ok s -> v = JStr s.
Proof. destruct v; simpl; congruence. Qed.

Lemma truthy_JStr (s : string) : truthy (JStr s) = true <-> s <> "".
Proof.
  simpl. destruct (String.eqb_spec s ""); simpl; split; congruence.
Qed.

(** The membership test and the iteration that follows it succeed together
    only on a map. *)
Lemma media_present_inv (entities : json) (present : bool) (urls : list json) :
  py_contains "media" entities = Ok present ->
  (if present then
     media_list <- py_getitem entities "media" ;;
     entries <- py_iter media_list ;;
     map_result (fun media => py_get media "media_url_https" (JStr "")) entries
   else Ok []) = Ok urls ->
  present = match entities with
            | JDict kvs => dict_has "media" kvs
            | _ => false
            end.
Proof.
  destruct entities as [ | | | | s | items | kvs ]; simpl; try discriminate;
    intros [= <-] H; try reflexivity.
  - destruct (str_contains "media" s); [ discriminate | reflexivity ].
  - destruct (existsb _ items); [ discriminate | reflexivity ].
Qed.

Lemma normalizer_accept_inv (obj : json) (t : Tweet) :
  _parse_tweet_object obj = Ok (Some t) ->
  exists kvs legacy,
    obj = JDict kvs
    /\ legacy_of obj = JDict legacy
    /\ JStr (tweet_id t) = (if truthy (get_or "rest_id" kvs JNull)
                            then get_or "rest_id" kvs JNull
                            else get_or "id_str" legacy JNull)
    /\ JStr (text t) = get_or "full_text" legacy (JStr "")
    /\ tweet_id t <> ""
    /\ text t <> ""
    /\ validate_int (get_or "favorite_count" legacy (JInt 0)) = Ok (likes t)
    /\ validate_int (get_or "retweet_count" legacy (JInt 0)) = Ok (retweets t)
    /\ validate_int (get_or "reply_count" legacy (JInt 0)) = Ok (replies t)
    /\ has_media t = media_key_present obj
    /\ is_reply t = truthy (get_or "in_reply_to_status_id_str" legacy JNull)
    /\ validate_opt_str (get_or "in_reply_to_status_id_str" legacy JNull)
       = Ok (reply_to_tweet_id t)
    /\ is_quote t = dict_has "quoted_status_result" kvs
    /\ tweet_url t = ("https://x.com/" ++ username t ++ "/status/" ++ tweet_id t)%string.
Proof.
  unfold _parse_tweet_object. intros H.
  destruct obj as [ | | | | | | kvs ]; try discriminate H.
  rewrite !py_get_dict in H. cbn [bind] in H.
  destruct (py_get (get_or "core" kvs (JDict [])) "user_results" (JDict []))
    as [wrapper | ] eqn:Ew; cbn [bind] in H; [ | discriminate H ].
  destruct (py_get wrapper "result" (JDict [])) as [user | ] eqn:Eu;
    cbn [bind] in H; [ | discriminate H ].
  destruct (py_get user "legacy" (JDict [])) as [user_legacy | ] eqn:Eul;
    cbn [bind] in H; [ | discriminate H ].
  remember (get_or "legacy" kvs (JDict kvs)) as legacy eqn:Hlegacy.
  remember (get_or "rest_id" kvs JNull) as rest_id eqn:Hrest.
  destruct (if truthy rest_id then Ok rest_id else py_get legacy "id_str" JNull)
    as [tid | ] eqn:Etid; cbn [bind] in H; [ | discriminate H ].
  destruct (truthy tid) eqn:Htid; cbn [negb] in H; [ | discriminate H ].
  destruct (py_get legacy "full_text" (JStr "")) as [body | ] eqn:Ebody;
    cbn [bind] in H; [ | discriminate H ].
  destruct (truthy body) eqn:Hbody; cbn [negb] in H; [ | discriminate H ].
  destruct (py_get_ok_inv _ _ _ _ Ebody) as [l [-> ->]].
  rewrite !py_get_dict in H. cbn [bind py_contains] in H.
  rewrite py_get_dict in Etid.
  bind_inv H.
  match goal with
  | Hc : py_contains "media" _ = Ok ?p, Hm : (if ?p then _ else _) = Ok _ |- _ =>
      pose proof (media_present_inv _ _ _ Hc Hm) as Hmedia
  end.
  match goal with
  | Hn : Tweet_new _ = Ok _ |- _ => unfold Tweet_new in Hn; bind_inv Hn; injection Hn as <-
  end.
  injection H as <-.
  cbn [a_tweet_id a_text a_likes a_retweets a_replies a_reply_to_tweet_id] in *.
  repeat match goal with
         | Hv : validate_str _ = Ok _ |- _ => apply validate_str_inv in Hv
         end.
  exists kvs, l. cbn [tweet_id text likes retweets replies has_media is_reply
                      reply_to_tweet_id is_quote tweet_url username].
  unfold media_key_present, legacy_of. cbn [dict_items].
  rewrite <- Hlegacy. cbn [dict_items].
  repeat split; try assumption; try reflexivity.
  - subst tid. rewrite <- Hrest. destruct (truthy rest_id); congruence.
  - congruence.
  - apply truthy_JStr. subst tid. exact Htid.
  - apply truthy_JStr. congruence.
  - rewrite Hmedia. unfold get_or.
    destruct (dict_lookup "extended_entities" l) as [ [ | | | | | | ] | ]; reflexivity.
Qed.

Lemma normalizer_reject_inv (obj : json) :
  _parse_tweet_object obj = Ok None ->
  exists kvs legacy,
    obj = JDict kvs
    /\ legacy_of obj = JDict legacy
    /\ (truthy (if truthy (get_or "rest_id" kvs JNull)
                then get_or "rest_id" kvs JNull
                else get_or "id_str" legacy JNull) = false
        \/ truthy (get_or "full_text" legacy (JStr "")) = false).
Proof.
  unfold _parse_tweet_object. intros H.
  destruct obj as [ | | | | | | kvs ]; try discriminate H.
  rewrite !py_get_dict in H. cbn [bind] in H.
  destruct (py_get (get_or "core" kvs (JDict [])) "user_results" (JDict []))
    as [wrapper | ] eqn:Ew; cbn [bind] in H; [ | discriminate H ].
  destruct (py_get wrapper "result" (JDict [])) as [user | ] eqn:Eu;
    cbn [bind] in H; [ | discriminate H ].
  destruct (py_get user "legacy" (JDict [])) as [user_legacy | ] eqn:Eul;
    cbn [bind] in H; [ | discriminate H ].
  unfold legacy_of. cbn [dict_items].
  remember (get_or "legacy" kvs (JDict kvs)) as legacy eqn:Hlegacy.
  remember (get_or "rest_id" kvs JNull) as rest_id eqn:Hrest.
  destruct (truthy rest_id) eqn:Hr.
  - cbn [bind] in H. rewrite Hr in H. cbn [negb] in H.
    destruct (py_get legacy "full_text" (JStr "")) as [body | ] eqn:Ebody;
      cbn [bind] in H; [ | discriminate H ].
    destruct (py_get_ok_inv _ _ _ _ Ebody) as [l [-> ->]].
    exists kvs, l. repeat split. rewrite <- Hrest, Hr.
    destruct (truthy (get_or "full_text" l (JStr ""))); [ | auto ].
    cbn [negb] in H. bind_inv H. discriminate H.
  - destruct (py_get legacy "id_str" JNull) as [tid | ] eqn:Etid;
      cbn [bind] in H; [ | discriminate H ].
    destruct (py_get_ok_inv _ _ _ _ Etid) as [l [-> ->]].
    exists kvs, l. repeat split. rewrite <- Hrest, Hr.
    destruct (truthy (get_or "id_str" l JNull)); [ | auto ].
    cbn [negb] in H. rewrite py_get_dict in H. cbn [bind] in H.
    destruct (truthy (get_or "full_text" l (JStr ""))); [ | auto ].
    cbn [negb] in H. bind_inv H. discriminate H.
Qed.

End NormalizerInversion.

Section NormalizerClaims.
Context {L : PyLib}.


Lemma media_array_nonempty_key (obj : json) :
  media_array_nonempty obj = true -> media_key_present obj = true.
Proof.
  unfold media_array_nonempty, media_key_present, dict_has.
  destruct (dict_lookup "extended_entities" (dict_items (legacy_of obj)))
    as [ [ | | | | | | entities ] | ]; try discriminate.
  destruct (dict_lookup "media" entities); [ reflexivity | discriminate ].
Qed.

(** C3, as the code has it: for every candidate the normalizer accepts, the
    has-media flag of the record is true exactly when the extended-entities
    value is a map that has a [media] key, whatever the length of the array
    under it; a non-empty media array therefore gives a true flag. *)
Theorem has_media_iff_media_key (obj : json) (t : Tweet) :
  _parse_tweet_object obj = Ok (Some t) ->
  has_media t = media_key_present obj
  /\ (media_array_nonempty obj = true -> has_media t = true).
Proof.
  intros H.
  destruct (normalizer_accept_inv obj t H)
    as (kvs & legacy & _ & _ & _ & _ & _ & _ & _ & _ & _ & Hmedia & _).
  split; [ exact Hmedia | ].
  intros Hne. rewrite Hmedia. apply media_array_nonempty_key. exact Hne.
Qed.


End NormalizerClaims.

(** C1: the normalizer raises on candidate maps with a malformed field: a
    [legacy] value that is not a map, a view count that is not numeric, a
    [created_at] that is not a string, a media entry that is not a map. *)
Lemma normalizer_raises_on_malformed_fields :
  is_dict bad_legacy = true
  /\ _parse_tweet_object bad_legacy = Raise AttributeError
  /\ _parse_tweet_object bad_views_count = Raise ValueError
  /\ _parse_tweet_object bad_created_at = Raise TypeError
  /\ _parse_tweet_object bad_media_entry = Raise AttributeError.
Proof. repeat split; vm_compute; reflexivity. Qed.

Lemma normalizer_total_on_expected_shape_witness :
  expected_shape full_candidate = true
  /\ exists r, _parse_tweet_object full_candidate = Ok r
               /\ raises (_parse_tweet_object full_candidate) = false.
Proof.
  split; [ reflexivity | ].
  apply (normalizer_total_on_expected_shape full_candidate). reflexivity.
Defined.

(** C3: a candidate whose media array is present but empty is accepted with
    the has-media flag set. *)
Lemma has_media_true_on_empty_media_array :
  exists t,
    _parse_tweet_object empty_media = Ok (Some t)
    /\ media_array_nonempty empty_media = false
    /\ has_media t = true
    /\ media_urls t = [].
Proof. eexists. repeat split; vm_compute; reflexivity. Qed.

Lemma has_media_iff_media_key_witness :
  exists t,
    _parse_tweet_object full_candidate = Ok (Some t)
    /\ has_media t = media_key_present full_candidate
    /\ (media_array_nonempty full_candidate = true -> has_media t = true).
Proof.
  eexists. split; [ reflexivity | ].
  apply (has_media_iff_media_key full_candidate). reflexivity.
Defined.



(** ** The payload walker *)

Lemma walk_values_eq (room : nat) (kvs : list (string * json)) :
  (fix values (l : list (string * json)) : result (list json) :=
     match l with
     | [] => Ok []
     | (_, value) :: rest =>
         here <- find_tweet_results room value ;;
         there <- values rest ;;
         Ok (here ++ there)
     end) kvs = walk_children room (map snd kvs).
Proof.
  induction kvs as [ | [k v] rest IH ]; [ reflexivity | ].
  cbn [map snd walk_children]. rewrite <- IH. reflexivity.
Qed.

Lemma walk_elements_eq (room : nat) (items : list json) :
  (fix elements (l : list json) : result (list json) :=
     match l with
     | [] => Ok []
     | item :: rest =>
         here <- find_tweet_results room item ;;
         there <- elements rest ;;
         Ok (here ++ there)
     end) items = walk_children room items.
Proof.
  induction items as [ | v rest IH ]; [ reflexivity | ].
  cbn [walk_children]. rewrite <- IH. reflexivity.
Qed.

(** The walker, node by node: what the node emits, then what its children
    yield, each walked with one call less to spare. *)
Lemma find_tweet_results_eq (room : nat) (v : json) :
  find_tweet_results (S room) v =
    wrapped <- emit_wrapped v ;;
    own <- emit_own v ;;
    nested <- walk_children room (children v) ;;
    Ok (wrapped ++ own ++ nested).
Proof.
  destruct v as [ | | | | | items | kvs ]; try reflexivity.
  - cbn [find_tweet_results]. rewrite walk_elements_eq.
    cbn [emit_wrapped emit_own children bind].
    destruct (walk_children room items); reflexivity.
  - cbn [find_tweet_results]. rewrite walk_values_eq. reflexivity.
Qed.





















(** ** Per-payload extraction *)

Section ExtractionClaims.
Context {L : PyLib}.

Lemma parse_loop_accepted (cs : list json) (tweets : list Tweet) :
  fold_left parse_step cs tweets = tweets ++ accepted cs.
Proof.
  revert tweets. induction cs as [ | c rest IH ]; intros tweets.
  - simpl. rewrite app_nil_r. reflexivity.
  - cbn [fold_left]. rewrite IH. unfold accepted. cbn [flat_map]. unfold parse_step.
    destruct (_parse_tweet_object c) as [[t | ] | e]; cbn [app];
      rewrite <- ?app_assoc; reflexivity.
Qed.

Lemma accepted_app (xs ys : list json) :
  accepted (xs ++ ys) = accepted xs ++ accepted ys.
Proof. unfold accepted. apply flat_map_app. Qed.

Lemma in_accepted (cs : list json) (t : Tweet) :
  In t (accepted cs) <-> exists c, In c cs /\ _parse_tweet_object c = Ok (Some t).
Proof.
  unfold accepted. rewrite in_flat_map. split.
  - intros [c [Hin Ht]]. exists c. split; [ exact Hin | ].
    destruct (_parse_tweet_object c) as [[t' | ] | e]; try destruct Ht.
    + subst. reflexivity.
    + destruct H.
  - intros [c [Hin Ht]]. exists c. split; [ exact Hin | ].
    rewrite Ht. left. reflexivity.
Qed.

(** C9: once the walk of a payload has returned its candidates, the
    extraction returns, and never raises; its result is the records of the
    candidates that normalize, in order: each record comes from a candidate
    that normalizes to it, each such candidate contributes, and a candidate
    on which the normalizer raises leaves the result as if it were absent. *)
Theorem extraction_contains_candidate_exceptions (data : json) (cs : list json) :
  find_tweet_results recursion_room data = Ok cs ->
  _extract_tweets_from_response data = Ok (accepted cs)
  /\ (forall t, In t (accepted cs) <->
                exists c, In c cs /\ _parse_tweet_object c = Ok (Some t))
  /\ (forall before bad after,
        cs = before ++ bad :: after ->
        raises (_parse_tweet_object bad) = true ->
        _extract_tweets_from_response data = Ok (accepted (before ++ after))).
Proof.
  intros Hwalk. unfold _extract_tweets_from_response. rewrite Hwalk. cbn [bind].
  rewrite parse_loop_accepted. cbn [app].
  split; [ reflexivity | ]. split; [ intros t; apply in_accepted | ].
  intros before bad after -> Hbad.
  rewrite !accepted_app. f_equal. f_equal.
  unfold accepted at 1. cbn [flat_map].
  destruct (_parse_tweet_object bad) as [r | e]; [ discriminate Hbad | reflexivity ].
Qed.

End ExtractionClaims.

Lemma extraction_contains_candidate_exceptions_witness :
  exists good,
    raises (_parse_tweet_object bad_legacy) = true
    /\ _extract_tweets_from_response payload_mixed = Ok (accepted good)
    /\ accepted good = [plain_tweet "1" "one"; plain_tweet "1" "one"].
Proof.
  assert (Hwalk : find_tweet_results recursion_room payload_mixed
                  = Ok [bad_legacy; tweet_result "1" "one"; tweet_result "1" "one"])
    by (vm_compute; reflexivity).
  destruct (extraction_contains_candidate_exceptions payload_mixed
              ([bad_legacy; tweet_result "1" "one"; tweet_result "1" "one"]) Hwalk)
    as (_ & _ & Hdrop).
  exists [tweet_result "1" "one"; tweet_result "1" "one"].
  split; [ reflexivity | ]. split; [ | reflexivity ].
  exact (Hdrop [] bad_legacy _ eq_refl eq_refl).
Defined.

(** ** The deduplicating collector *)

Lemma collector_has_app (id : string) (c c' : Collector) :
  collector_has id (c ++ c') = collector_has id c || collector_has id c'.
Proof. unfold collector_has. apply existsb_app. Qed.

Lemma collector_get_app_absent (id : string) (c c' : Collector) :
  collector_has id c = false ->
  collector_get id (c ++ c') = collector_get id c'.
Proof.
  unfold collector_has, collector_get. induction c as [ | entry rest IH ]; simpl.
  - reflexivity.
  - intros H. apply orb_false_elim in H. destruct H as [Hentry Hrest].
    rewrite Hentry. apply IH. exact Hrest.
Qed.

Lemma collector_add_new (c : Collector) (t : Tweet) :
  collector_has (tweet_id t) c = false ->
  collector_add c t = (c ++ [(tweet_id t, t)], true).
Proof. intros H. unfold collector_add. rewrite H. reflexivity. Qed.

Lemma collector_add_seen (c : Collector) (t : Tweet) :
  collector_has (tweet_id t) c = true -> collector_add c t = (c, false).
Proof. intros H. unfold collector_add. rewrite H. reflexivity. Qed.

Lemma collector_has_after_add (c : Collector) (t : Tweet) :
  collector_has (tweet_id t) (fst (collector_add c t)) = true.
Proof.
  unfold collector_add. destruct (collector_has (tweet_id t) c) eqn:H; cbn [fst].
  - exact H.
  - rewrite collector_has_app. unfold collector_has at 2. cbn [existsb fst].
    rewrite String.eqb_refl. rewrite H. reflexivity.
Qed.

(** C4: adding a record whose identifier the collector already holds leaves
    the collector, and so its size, unchanged and is reported as not new;
    and when two records with one identifier are added in turn, the second
    add changes nothing and the record stored under the identifier is the
    one that was stored first. *)
Theorem collector_add_idempotent (c : Collector) (first second : Tweet) :
  tweet_id second = tweet_id first ->
  let c1 := fst (collector_add c first) in
  collector_add c1 second = (c1, false)
  /\ size (fst (collector_add c1 second)) = size c1
  /\ collector_get (tweet_id first) (fst (collector_add c1 second))
     = collector_get (tweet_id first) c1
  /\ (collector_has (tweet_id first) c = true -> c1 = c)
  /\ (collector_has (tweet_id first) c = false ->
      collector_get (tweet_id first) (fst (collector_add c1 second)) = Some first).
Proof.
  intros Hid c1.
  assert (Hseen : collector_add c1 second = (c1, false)).
  { apply collector_add_seen. rewrite Hid. apply collector_has_after_add. }
  rewrite Hseen. cbn [fst].
  repeat split.
  - intros H. subst c1. rewrite (collector_add_seen c first H). reflexivity.
  - intros H. subst c1. rewrite (collector_add_new c first H). cbn [fst].
    rewrite (collector_get_app_absent _ c _ H).
    unfold collector_get. cbn [find fst snd]. rewrite String.eqb_refl. reflexivity.
Qed.

Lemma collector_add_idempotent_witness :
  let c1 := fst (collector_add [] (plain_tweet "1" "one")) in
  collector_add c1 (plain_tweet "1" "edited") = (c1, false)
  /\ size (fst (collector_add c1 (plain_tweet "1" "edited"))) = 1%nat
  /\ collector_get "1" (fst (collector_add c1 (plain_tweet "1" "edited")))
     = Some (plain_tweet "1" "one").
Proof.
  destruct (collector_add_idempotent [] (plain_tweet "1" "one") (plain_tweet "1" "edited")
              eq_refl) as (Hadd & Hsize & _ & _ & Hfirst).
  split; [ exact Hadd | ]. split; [ exact Hsize | ]. exact (Hfirst eq_refl).
Defined.

(** ** The scroll loop *)

Lemma firstn_slice {A : Type} (a b : nat) (l : list A) :
  (a <= b)%nat -> firstn a l ++ slice a b l = firstn b l.
Proof.
  unfold slice. revert a b. induction l as [ | x rest IH ]; intros a b Hab.
  - rewrite skipn_nil, !firstn_nil. reflexivity.
  - destruct a as [ | a ].
    + cbn [firstn skipn app]. rewrite Nat.sub_0_r. reflexivity.
    + destruct b as [ | b ]; [ lia | ].
      cbn [firstn skipn app Nat.sub]. f_equal. apply IH. lia.
Qed.

Section LoopFacts.
Context {L : PyLib}.

Lemma collector_add_extends (c : Collector) (t : Tweet) :
  exists more, fst (collector_add c t) = c ++ more.
Proof.
  unfold collector_add. destruct (collector_has (tweet_id t) c); cbn [fst].
  - exists []. rewrite app_nil_r. reflexivity.
  - eexists. reflexivity.
Qed.

Lemma add_all_extends (tweets : list Tweet) (c : Collector) :
  exists more,
    fold_left (fun acc tweet => fst (collector_add acc tweet)) tweets c = c ++ more.
Proof.
  revert c. induction tweets as [ | t rest IH ]; intros c; cbn [fold_left].
  - exists []. rewrite app_nil_r. reflexivity.
  - destruct (collector_add_extends c t) as [m1 ->].
    destruct (IH (c ++ m1)) as [m2 ->].
    exists (m1 ++ m2). rewrite app_assoc. reflexivity.
Qed.

Lemma handle_response_extends (c : Collector) (response : Response) :
  exists more, _handle_response c response = c ++ more.
Proof.
  unfold _handle_response.
  destruct (is_feed_response (url response));
    [ | exists []; rewrite app_nil_r; reflexivity ].
  destruct (body response) as [data | ];
    [ | exists []; rewrite app_nil_r; reflexivity ].
  destruct (_extract_tweets_from_response data) as [tweets | e];
    [ apply add_all_extends | exists []; rewrite app_nil_r; reflexivity ].
Qed.

Lemma handle_all_extends (responses : list Response) (c : Collector) :
  exists more, handle_all c responses = c ++ more.
Proof.
  unfold handle_all. revert c.
  induction responses as [ | r rest IH ]; intros c; cbn [fold_left].
  - exists []. rewrite app_nil_r. reflexivity.
  - destruct (handle_response_extends c r) as [m1 ->].
    destruct (IH (c ++ m1)) as [m2 ->].
    exists (m1 ++ m2). rewrite app_assoc. reflexivity.
Qed.

Lemma firstn_values_extends (n : nat) (c more : Collector) :
  (n <= size c)%nat -> firstn n (values (c ++ more)) = firstn n (values c).
Proof.
  intros H. unfold values, size in *. rewrite map_app.
  rewrite firstn_app. rewrite length_map.
  replace (n - List.length c)%nat with 0%nat by lia.
  cbn [firstn]. apply app_nil_r.
Qed.

Variable cfg : ScraperConfig.
Variable d : Driver.

Lemma scroll_loop_stops_at_target (target : Z) (fuel : nat) (st : LoopState) :
  target <= Z.of_nat (size (collected st)) ->
  scroll_loop cfg d target fuel st = Some (Finished st).
Proof.
  intros H. destruct fuel; cbn [scroll_loop];
    replace (Z.of_nat (size (collected st)) <? target) with false
      by (symmetry; apply Z.ltb_ge; exact H); reflexivity.
Qed.

Lemma scroll_loop_invariant (target : Z) (fuel : nat) :
  forall st e,
    stream_invariant st ->
    scroll_loop cfg d target fuel st = Some e ->
    stream_invariant (exit_state e).
Proof.
  induction fuel as [ | fuel IH ]; intros st e Hinv; cbn [scroll_loop].
  - destruct (_ && _); [ discriminate | ]. intros [= <-]. exact Hinv.
  - destruct (_ && _); [ | intros [= <-]; exact Hinv ].
    destruct Hinv as (Hle & Hy & Hn).
    destruct (handle_all_extends (arrived (during_scroll (iteration d (scrolls st))))
                (collected st)) as [m1 E1].
    rewrite E1.
    destruct (failure (during_scroll (iteration d (scrolls st)))) as [reason | ].
    { intros [= <-]. cbn [exit_state]. unfold stream_invariant.
      cbn [collected last_count yielded yield_count].
      split; [ unfold size in *; rewrite length_app; lia | ].
      split; [ rewrite firstn_values_extends; assumption | assumption ]. }
    destruct (Nat.ltb_spec (last_count st) (size (collected st ++ m1))) as [Hlt | Hge].
    + apply IH. unfold stream_invariant.
      cbn [collected last_count yielded yield_count].
      destruct (handle_all_extends (during_yield (iteration d (scrolls st)))
                  (collected st ++ m1)) as [m2 ->].
      split; [ unfold size; rewrite !length_app; lia | ].
      split.
      * rewrite firstn_values_extends by lia.
        rewrite Hy. rewrite <- (firstn_values_extends _ _ m1) by exact Hle.
        apply firstn_slice. lia.
      * rewrite length_app. lia.
    + set (no_new := S (no_new_tweets_count st)).
      set (c2 := if Nat.leb recovery_threshold no_new
                 then handle_all (collected st ++ m1)
                        (arrived (during_recovery (iteration d (scrolls st))))
                 else collected st ++ m1).
      assert (Hc2 : exists m2, c2 = collected st ++ m2).
      { subst c2. destruct (Nat.leb recovery_threshold no_new).
        - destruct (handle_all_extends
                      (arrived (during_recovery (iteration d (scrolls st))))
                      (collected st ++ m1)) as [m2 ->].
          exists (m1 ++ m2). rewrite app_assoc. reflexivity.
        - exists m1. reflexivity. }
      destruct Hc2 as [m2 Hc2].
      assert (Hinv' : stream_invariant
                        {| collected := c2; scrolls := S (scrolls st);
                           last_count := last_count st;
                           no_new_tweets_count := no_new;
                           yielded := yielded st;
                           yield_count := yield_count st |}).
      { unfold stream_invariant. cbn [collected last_count yielded yield_count].
        rewrite Hc2.
        split; [ unfold size in *; rewrite length_app; lia | ].
        split; [ rewrite firstn_values_extends; assumption | assumption ]. }
      destruct (if Nat.leb recovery_threshold no_new
                then failure (during_recovery (iteration d (scrolls st)))
                else None) as [reason | ].
      { intros [= <-]. exact Hinv'. }
      destruct (Nat.leb stall_threshold no_new).
      { intros [= <-]. exact Hinv'. }
      apply IH. exact Hinv'.
Qed.

End LoopFacts.

Section LoopBounds.
Context {L : PyLib}.
Variable cfg : ScraperConfig.
Variable d : Driver.

(** The cap leaves the loop at most [max_scrolls - scrolls] turns. *)
Lemma scroll_loop_terminates (target : Z) (fuel : nat) :
  forall st,
    (Z.to_nat (max_scrolls cfg) - scrolls st <= fuel)%nat ->
    exists e, scroll_loop cfg d target fuel st = Some e.
Proof.
  induction fuel as [ | fuel IH ]; intros st Hfuel; cbn [scroll_loop].
  - destruct (Z.ltb_spec (Z.of_nat (scrolls st)) (max_scrolls cfg)) as [Hlt | Hge].
    + lia.
    + rewrite andb_false_r. eauto.
  - destruct (_ && _) eqn:Hcond; [ | eauto ].
    destruct (failure (during_scroll (iteration d (scrolls st)))); [ eauto | ].
    destruct (Nat.ltb _ _).
    + apply IH. cbn [scrolls]. lia.
    + destruct (if Nat.leb recovery_threshold (S (no_new_tweets_count st))
                then failure (during_recovery (iteration d (scrolls st)))
                else None); [ eauto | ].
      destruct (Nat.leb stall_threshold _); [ eauto | ].
      apply IH. cbn [scrolls]. lia.
Qed.

Lemma scroll_loop_within_cap (target : Z) (fuel : nat) :
  forall st e,
    scroll_loop cfg d target fuel st = Some e ->
    Z.of_nat (scrolls (exit_state e))
    <= Z.max (Z.of_nat (scrolls st)) (max_scrolls cfg).
Proof.
  induction fuel as [ | fuel IH ]; intros st e; cbn [scroll_loop].
  - destruct (_ && _); [ discriminate | ]. intros [= <-]. cbn [exit_state]. lia.
  - destruct (_ && _) eqn:Hcond; [ | intros [= <-]; cbn [exit_state]; lia ].
    apply andb_prop in Hcond. destruct Hcond as [_ Hcap].
    apply Z.ltb_lt in Hcap.
    destruct (failure (during_scroll (iteration d (scrolls st)))).
    { intros [= <-]. cbn [exit_state scrolls]. lia. }
    destruct (Nat.ltb _ _).
    + intros H. apply IH in H. cbn [scrolls] in H. lia.
    + destruct (if Nat.leb recovery_threshold (S (no_new_tweets_count st))
                then failure (during_recovery (iteration d (scrolls st)))
                else None).
      { intros [= <-]. cbn [exit_state scrolls]. lia. }
      destruct (Nat.leb stall_threshold _).
      { intros [= <-]. cbn [exit_state scrolls]. lia. }
      intros H. apply IH in H. cbn [scrolls] in H. lia.
Qed.

End LoopBounds.

Section LoopTurns.
Context {L : PyLib}.
Variable d : Driver.

Lemma scroll_loop_unfold (cfg : ScraperConfig) (target : Z) (fuel : nat) (st : LoopState) :
  scroll_loop cfg d target (S fuel) st =
    if loop_condition cfg target st then
      match loop_body d st with
      | inl e => Some e
      | inr st' => scroll_loop cfg d target fuel st'
      end
    else Some (Finished st).
Proof.
  cbn [scroll_loop]. unfold loop_condition, loop_body.
  destruct (_ && _); [ | reflexivity ].
  destruct (failure (during_scroll (iteration d (scrolls st)))); [ reflexivity | ].
  destruct (Nat.ltb _ _); [ reflexivity | ].
  destruct (if Nat.leb recovery_threshold (S (no_new_tweets_count st))
            then failure (during_recovery (iteration d (scrolls st)))
            else None); [ reflexivity | ].
  destruct (Nat.leb stall_threshold _); reflexivity.
Qed.

Lemma scroll_loop_out_of_fuel (cfg : ScraperConfig) (target : Z) (st : LoopState) :
  scroll_loop cfg d target 0 st =
    if loop_condition cfg target st then None else Some (Finished st).
Proof. reflexivity. Qed.




End LoopTurns.

(** ** The session *)

Section SessionFacts.
Context {L : PyLib}.
Variable cfg : ScraperConfig.
Variable d : Driver.

Lemma loop_start_invariant (c : Collector) : stream_invariant (loop_start c).
Proof.
  unfold stream_invariant. cbn [loop_start last_count collected yielded yield_count].
  repeat split. lia.
Qed.


(** The result of a session, read off the exit of its loop. *)
Lemma scrape_for_you_feed_result (fuel : nat) (max_tweets : option Z) (r : SessionResult) :
  scrape_for_you_feed cfg d fuel max_tweets = Some r ->
  (exists reason c,
      (failure (goto d) = Some reason
       \/ (failure (goto d) = None /\ failure (wait_for_selector d) = Some reason))
      /\ r = session_failed (loop_start c) reason)
  \/ (failure (goto d) = None
      /\ failure (wait_for_selector d) = None
      /\ exists e,
           scroll_loop cfg d (effective_target cfg max_tweets) fuel
             (loop_start (collected_at_start d)) = Some e
           /\ r = match e with
                  | Crashed st reason => session_failed st reason
                  | Finished st =>
                      match storage_state d with
                      | Some reason => session_failed st reason
                      | None => session_completed st
                      end
                  end).
Proof.
  unfold scrape_for_you_feed, collected_at_start.
  destruct (failure (goto d)) as [reason | ].
  { intros [= <-]. left. eexists reason, _. split; [ left | ]; reflexivity. }
  destruct (failure (wait_for_selector d)) as [reason | ].
  { intros [= <-]. left. eexists reason, _. split; [ right; split | ]; reflexivity. }
  intros H. right. split; [ reflexivity | ]. split; [ reflexivity | ].
  destruct (scroll_loop _ _ _ _ _) as [e | ]; [ | discriminate ].
  exists e. split; [ reflexivity | ].
  destruct e as [st | st reason]; [ destruct (storage_state d) | ];
    injection H as <-; reflexivity.
Qed.

Lemma session_stream_prefix (fuel : nat) (max_tweets : option Z) (r : SessionResult) :
  scrape_for_you_feed cfg d fuel max_tweets = Some r ->
  exists n, (n <= size (store r))%nat /\ stream r = firstn n (values (store r))
            /\ tweets_collected (session r) = List.length (stream r).
Proof.
  intros H. destruct (scrape_for_you_feed_result _ _ _ H)
    as [(reason & c & _ & ->) | (_ & _ & e & Hloop & ->)].
  - exists 0%nat. cbn. repeat split. lia.
  - pose proof (scroll_loop_invariant cfg d _ _ _ _ (loop_start_invariant _) Hloop)
      as (Hle & Hy & Hn).
    exists (last_count (exit_state e)).
    destruct e as [st | st reason]; [ destruct (storage_state d) | ];
      cbn [exit_state session_failed session_completed store stream session
           tweets_collected] in *; repeat split; assumption.
Qed.

End SessionFacts.

(** ** The turns of a run *)

Section RunFacts.
Context {L : PyLib}.
Variable cfg : ScraperConfig.
Variable d : Driver.

(** One turn, from a state in which the stream is the beginning of the
    collector: a turn that ends without an exception has yielded the whole
    collector as its scroll left it; a turn that raises yields nothing. *)
Lemma loop_body_turn (st : LoopState) :
  stream_invariant st ->
  match loop_body d st with
  | inr st' | inl (Finished st') =>
      stream_invariant st'
      /\ scrolls st' = S (scrolls st)
      /\ yielded st' = values (after_scroll d st)
      /\ (exists late, collected st' = after_scroll d st ++ late)
      /\ failure (during_scroll (iteration d (scrolls st))) = None
  | inl (Crashed st' reason) =>
      stream_invariant st'
      /\ yielded st' = yielded st
      /\ ((failure (during_scroll (iteration d (scrolls st))) = Some reason
           /\ scrolls st' = scrolls st)
          \/ (failure (during_scroll (iteration d (scrolls st))) = None
              /\ failure (during_recovery (iteration d (scrolls st))) = Some reason
              /\ (size (after_scroll d st) <= last_count st)%nat
              /\ (recovery_threshold <= S (no_new_tweets_count st))%nat
              /\ scrolls st' = S (scrolls st)))
  end.
Proof.
  intros (Hle & Hy & Hn). unfold loop_body, after_scroll.
  destruct (handle_all_extends (arrived (during_scroll (iteration d (scrolls st))))
              (collected st)) as [m1 E1].
  rewrite E1.
  assert (Hinv1 : stream_invariant
                    {| collected := collected st ++ m1; scrolls := scrolls st;
                       last_count := last_count st;
                       no_new_tweets_count := no_new_tweets_count st;
                       yielded := yielded st; yield_count := yield_count st |}).
  { unfold stream_invariant. cbn [collected last_count yielded yield_count].
    split; [ unfold size in *; rewrite length_app; lia | ].
    split; [ rewrite firstn_values_extends; assumption | assumption ]. }
  destruct (failure (during_scroll (iteration d (scrolls st)))) as [reason | ].
  { split; [ exact Hinv1 | ]. split; [ reflexivity | ]. left. split; reflexivity. }
  destruct (Nat.ltb_spec (last_count st) (size (collected st ++ m1))) as [Hlt | Hge].
  - destruct (handle_all_extends (during_yield (iteration d (scrolls st)))
                (collected st ++ m1)) as [m2 E2].
    assert (Hall : yielded st
                   ++ slice (last_count st) (size (collected st ++ m1))
                        (values (collected st ++ m1))
                   = values (collected st ++ m1)).
    { rewrite Hy. rewrite <- (firstn_values_extends _ _ m1) by exact Hle.
      rewrite firstn_slice by lia.
      unfold size, values. rewrite <- (length_map snd). apply firstn_all. }
    split; [ | split; [ reflexivity | split; [ exact Hall | split; [ | reflexivity ] ] ] ].
    + unfold stream_invariant. cbn [collected last_count yielded yield_count].
      rewrite E2.
      split; [ unfold size; rewrite !length_app; lia | ].
      split.
      * rewrite firstn_values_extends by lia. rewrite Hall.
        unfold size, values. rewrite <- (length_map snd). symmetry. apply firstn_all.
      * rewrite length_app. lia.
    + cbn [collected]. exists m2. exact E2.
  - assert (Hm1 : m1 = []).
    { unfold size in *. rewrite length_app in Hge.
      destruct m1; [ reflexivity | cbn [List.length] in Hge; lia ]. }
    subst m1. rewrite app_nil_r in *.
    assert (Hall : yielded st = values (collected st)).
    { rewrite Hy. replace (last_count st) with (List.length (values (collected st))).
      - apply firstn_all.
      - unfold values, size in *. rewrite length_map. lia. }
    set (no_new := S (no_new_tweets_count st)).
    set (c2 := if Nat.leb recovery_threshold no_new
               then handle_all (collected st)
                      (arrived (during_recovery (iteration d (scrolls st))))
               else collected st).
    assert (Hc2 : exists m2, c2 = collected st ++ m2).
    { subst c2. destruct (Nat.leb recovery_threshold no_new).
      - apply handle_all_extends.
      - exists []. rewrite app_nil_r. reflexivity. }
    assert (Hinv' : stream_invariant
                      {| collected := c2; scrolls := S (scrolls st);
                         last_count := last_count st;
                         no_new_tweets_count := no_new;
                         yielded := yielded st;
                         yield_count := yield_count st |}).
    { destruct Hc2 as [m2 Hc2].
      unfold stream_invariant. cbn [collected last_count yielded yield_count].
      rewrite Hc2.
      split; [ unfold size in *; rewrite length_app; lia | ].
      split; [ rewrite firstn_values_extends; assumption | assumption ]. }
    destruct (Nat.leb_spec recovery_threshold no_new) as [Hrec | Hrec].
    + destruct (failure (during_recovery (iteration d (scrolls st)))) as [reason | ].
      { split; [ exact Hinv' | ]. split; [ reflexivity | ]. right.
        repeat split; try reflexivity; assumption. }
      destruct (Nat.leb stall_threshold no_new);
        (split; [ exact Hinv' | ]); cbn [scrolls yielded collected];
        (split; [ reflexivity | ]); (split; [ exact Hall | ]);
        (split; [ exact Hc2 | reflexivity ]).
    + destruct (Nat.leb stall_threshold no_new);
        (split; [ exact Hinv' | ]); cbn [scrolls yielded collected];
        (split; [ reflexivity | ]); (split; [ exact Hall | ]);
        (split; [ exact Hc2 | reflexivity ]).
Qed.


Lemma turns_invariant (target : Z) (fuel : nat) :
  forall st0 st,
    stream_invariant st0 ->
    In st (turns cfg d target fuel st0) ->
    stream_invariant st.
Proof.
  induction fuel as [ | fuel IH ]; intros st0 st Hinv Hin; cbn [turns] in Hin.
  - destruct Hin as [<- | []]. exact Hinv.
  - destruct Hin as [<- | Hin]; [ exact Hinv | ].
    destruct (loop_condition cfg target st0); [ | destruct Hin ].
    pose proof (loop_body_turn st0 Hinv) as Hbody.
    destruct (loop_body d st0) as [e0 | st1]; [ destruct Hin | ].
    apply (IH st1 st); [ apply Hbody | exact Hin ].
Qed.


(** When the loop ends without an exception after at least one scroll, what
    it has yielded is the whole collector as the last scroll left it. *)
Lemma finished_after_last_scroll (target : Z) (fuel : nat) :
  forall st st',
    stream_invariant st ->
    scroll_loop cfg d target fuel st = Some (Finished st') ->
    st' = st
    \/ exists s,
         In s (turns cfg d target fuel st)
         /\ loop_condition cfg target s = true
         /\ scrolls st' = S (scrolls s)
         /\ yielded st' = values (after_scroll d s)
         /\ exists late, collected st' = after_scroll d s ++ late.
Proof.
  induction fuel as [ | fuel IH ]; intros st st' Hinv.
  - rewrite scroll_loop_out_of_fuel. destruct (loop_condition cfg target st);
      [ discriminate | ]. intros [= <-]. left. reflexivity.
  - rewrite scroll_loop_unfold. cbn [turns].
    destruct (loop_condition cfg target st) eqn:Hcond;
      [ | intros [= <-]; left; reflexivity ].
    pose proof (loop_body_turn st Hinv) as Hbody.
    destruct (loop_body d st) as [[st1 | st1 reason] | st1].
    + intros [= <-]. right. exists st.
      destruct Hbody as (_ & Hs & Hy & Hlate & _).
      split; [ left; reflexivity | ]. repeat split; assumption.
    + discriminate.
    + intros Hloop. destruct Hbody as (Hinv1 & Hs & Hy & Hlate & _).
      destruct (IH st1 st' Hinv1 Hloop) as [-> | (s & Hin & Hc & Hs' & Hy' & Hlate')].
      * right. exists st. split; [ left; reflexivity | ]. repeat split; assumption.
      * right. exists s. split; [ right; exact Hin | ]. repeat split; assumption.
Qed.

Lemma scroll_loop_never_crashes (target : Z) (fuel : nat) :
  (forall i, failure (during_scroll (iteration d i)) = None
             /\ failure (during_recovery (iteration d i)) = None) ->
  forall st e,
    scroll_loop cfg d target fuel st = Some e -> exists st', e = Finished st'.
Proof.
  intros Hok. induction fuel as [ | fuel IH ]; intros st e.
  - rewrite scroll_loop_out_of_fuel. destruct (loop_condition cfg target st);
      [ discriminate | ]. intros [= <-]. eauto.
  - rewrite scroll_loop_unfold. destruct (loop_condition cfg target st);
      [ | intros [= <-]; eauto ].
    unfold loop_body. destruct (Hok (scrolls st)) as [-> ->].
    destruct (Nat.ltb _ _); [ apply IH | ].
    destruct (Nat.leb recovery_threshold _); destruct (Nat.leb stall_threshold _);
      try (intros [= <-]; eauto); apply IH.
Qed.

(** From a state whose records were all yielded, a run in which the
    collector keeps its size ends by the time the stall counter reaches the
    threshold. *)
Lemma stalled_run_ends (target : Z) (fuel : nat) :
  forall st e,
    stream_invariant st ->
    last_count st = size (collected st) ->
    (no_new_tweets_count st < stall_threshold)%nat ->
    Forall (fun s => size (collected s) = size (collected st))
      (turns cfg d target fuel st) ->
    scroll_loop cfg d target fuel st = Some e ->
    (scrolls (exit_state e) + no_new_tweets_count st <= scrolls st + stall_threshold)%nat.
Proof.
  induction fuel as [ | fuel IH ]; intros st e Hinv Hcounted Hstall Hquiet.
  - rewrite scroll_loop_out_of_fuel. destruct (loop_condition cfg target st);
      [ discriminate | ]. intros [= <-]. cbn [exit_state]. lia.
  - rewrite scroll_loop_unfold. cbn [turns] in Hquiet.
    destruct (loop_condition cfg target st);
      [ | intros [= <-]; cbn [exit_state]; lia ].
    apply Forall_inv_tail in Hquiet.
    pose proof (loop_body_turn st Hinv) as Hbody. revert Hbody Hquiet.
    unfold loop_body. fold (after_scroll d st).
    destruct (failure (during_scroll (iteration d (scrolls st)))) as [reason | ].
    { intros _ _ [= <-]. cbn [exit_state scrolls]. lia. }
    destruct (Nat.ltb_spec (last_count st) (size (after_scroll d st))) as [Hprog | Hnone].
    + intros (_ & _ & _ & [late Hlate] & _) Hquiet. exfalso.
      destruct fuel as [ | fuel ]; cbn [turns] in Hquiet;
        apply Forall_inv in Hquiet; cbn [collected] in Hquiet, Hlate;
        rewrite Hlate in Hquiet; unfold size in *; rewrite length_app in Hquiet; lia.
    + destruct (if Nat.leb recovery_threshold (S (no_new_tweets_count st))
                then failure (during_recovery (iteration d (scrolls st)))
                else None) as [reason | ].
      { intros _ _ [= <-]. cbn [exit_state scrolls]. lia. }
      destruct (Nat.leb_spec stall_threshold (S (no_new_tweets_count st))) as [Hhit | Hnot].
      { intros _ _ [= <-]. cbn [exit_state scrolls]. lia. }
      intros (Hinv1 & _) Hquiet Hloop.
      assert (Hsame : size (if Nat.leb recovery_threshold (S (no_new_tweets_count st))
                            then handle_all (after_scroll d st)
                                   (arrived (during_recovery (iteration d (scrolls st))))
                            else after_scroll d st) = size (collected st)).
      { destruct fuel as [ | fuel ]; cbn [turns] in Hquiet;
          apply Forall_inv in Hquiet; exact Hquiet. }
      apply IH in Hloop; cbn [collected last_count no_new_tweets_count scrolls] in *.
      * lia.
      * exact Hinv1.
      * rewrite Hsame. exact Hcounted.
      * lia.
      * rewrite Hsame. exact Hquiet.
Qed.

Lemma after_scroll_size (st : LoopState) :
  (size (collected st) <= size (after_scroll d st))%nat.
Proof.
  unfold after_scroll.
  destruct (handle_all_extends (arrived (during_scroll (iteration d (scrolls st))))
              (collected st)) as [m ->].
  unfold size. rewrite length_app. lia.
Qed.

(** A run in which the collector keeps its size: after at most one turn
    that yields what was collected and not yet yielded, every turn is a
    stall. *)
Lemma stalled_session_ends (target : Z) (fuel : nat) (st : LoopState) (e : LoopExit) :
  stream_invariant st ->
  (no_new_tweets_count st < stall_threshold)%nat ->
  Forall (fun s => size (collected s) = size (collected st))
    (turns cfg d target fuel st) ->
  scroll_loop cfg d target fuel st = Some e ->
  (scrolls (exit_state e) <= scrolls st + S stall_threshold)%nat
  /\ (last_count st = size (collected st) ->
      (scrolls (exit_state e) + no_new_tweets_count st
       <= scrolls st + stall_threshold)%nat).
Proof.
  intros Hinv Hstall Hquiet Hloop.
  destruct (Nat.eq_dec (last_count st) (size (collected st))) as [Hcounted | Hsome].
  { pose proof (stalled_run_ends target fuel st e Hinv Hcounted Hstall Hquiet Hloop).
    split; [ lia | intros _; assumption ]. }
  split; [ | intros H; contradiction ].
  destruct fuel as [ | fuel ].
  { revert Hloop. rewrite scroll_loop_out_of_fuel.
    destruct (loop_condition cfg target st); [ discriminate | ].
    intros [= <-]. cbn [exit_state]. lia. }
  revert Hloop. rewrite scroll_loop_unfold. cbn [turns] in Hquiet.
  destruct (loop_condition cfg target st);
    [ | intros [= <-]; cbn [exit_state]; lia ].
  apply Forall_inv_tail in Hquiet.
  pose proof (loop_body_turn st Hinv) as Hbody. revert Hbody Hquiet.
  pose proof (after_scroll_size st) as Hgrow.
  pose proof Hinv as (Hle & _).
  unfold loop_body. fold (after_scroll d st).
  destruct (failure (during_scroll (iteration d (scrolls st)))) as [reason | ].
  { intros _ _ [= <-]. cbn [exit_state scrolls]. lia. }
  destruct (Nat.ltb_spec (last_count st) (size (after_scroll d st))) as [Hprog | Hnone];
    [ | lia ].
  intros (Hinv1 & _ & _ & [late Hlate] & _) Hquiet Hloop.
  cbn [collected] in Hlate.
  assert (Hsize1 : size (handle_all (after_scroll d st)
                           (during_yield (iteration d (scrolls st))))
                   = size (collected st)).
  { destruct fuel as [ | fuel ]; cbn [turns] in Hquiet;
      apply Forall_inv in Hquiet; exact Hquiet. }
  assert (Hsame : size (after_scroll d st) = size (collected st)).
  { rewrite Hlate in Hsize1. unfold size in *. rewrite length_app in Hsize1. lia. }
  apply stalled_run_ends in Hloop;
    cbn [collected last_count no_new_tweets_count scrolls] in *.
  - lia.
  - exact Hinv1.
  - rewrite Hsize1. exact Hsame.
  - unfold stall_threshold. lia.
  - rewrite Hsize1. exact Hquiet.
Qed.

(** From a state in which the loop tests its condition, the run goes on
    as a run of its own. *)
Lemma turns_split (target : Z) (fuel : nat) :
  forall st0 before st after,
    turns cfg d target fuel st0 = before ++ st :: after ->
    exists fuel',
      turns cfg d target fuel' st = st :: after
      /\ forall e,
           scroll_loop cfg d target fuel st0 = Some e ->
           scroll_loop cfg d target fuel' st = Some e.
Proof.
  induction fuel as [ | fuel IH ]; intros st0 before st after Hsplit.
  - cbn [turns] in Hsplit. destruct before as [ | b [ | b' before ] ];
      try discriminate Hsplit.
    injection Hsplit as <- <-. exists 0%nat. split; [ reflexivity | auto ].
  - destruct before as [ | b before ].
    + exists (S fuel). cbn [app] in Hsplit.
      assert (Hst : st = st0) by (cbn [turns] in Hsplit; congruence).
      subst st. split; [ exact Hsplit | auto ].
    + cbn [turns app] in Hsplit. injection Hsplit as _ Htail.
      destruct (loop_condition cfg target st0) eqn:Hcond;
        [ | destruct before; discriminate Htail ].
      destruct (loop_body d st0) as [e0 | st1] eqn:Hbody;
        [ destruct before; discriminate Htail | ].
      destruct (IH st1 before st after Htail) as (fuel' & Hturns & Hexit).
      exists fuel'. split; [ exact Hturns | ].
      intros e. rewrite scroll_loop_unfold, Hcond, Hbody. apply Hexit.
Qed.

(** The stall counter is below the threshold whenever the loop tests its
    condition. *)
Lemma turns_stall_counter (target : Z) (fuel : nat) :
  forall st0 st,
    (no_new_tweets_count st0 < stall_threshold)%nat ->
    In st (turns cfg d target fuel st0) ->
    (no_new_tweets_count st < stall_threshold)%nat.
Proof.
  induction fuel as [ | fuel IH ]; intros st0 st Hlow Hin; cbn [turns] in Hin.
  - destruct Hin as [<- | []]. exact Hlow.
  - destruct Hin as [<- | Hin]; [ exact Hlow | ].
    destruct (loop_condition cfg target st0); [ | destruct Hin ].
    revert Hin. unfold loop_body.
    destruct (failure (during_scroll (iteration d (scrolls st0)))); [ intros [] | ].
    destruct (Nat.ltb _ _).
    { apply IH. cbn [no_new_tweets_count]. unfold stall_threshold. lia. }
    destruct (if Nat.leb recovery_threshold (S (no_new_tweets_count st0))
              then failure (during_recovery (iteration d (scrolls st0)))
              else None); [ intros [] | ].
    destruct (Nat.leb_spec stall_threshold (S (no_new_tweets_count st0)));
      [ intros [] | ].
    apply IH. cbn [no_new_tweets_count]. assumption.
Qed.

(** Once the collector stops growing, the loop ends within the stall
    threshold, after at most one turn that yields what was not yet
    yielded. *)
Lemma stalled_from (target : Z) (fuel : nat) (st0 : LoopState) (e : LoopExit)
    (before : list LoopState) (st : LoopState) (after : list LoopState) :
  stream_invariant st0 ->
  (no_new_tweets_count st0 < stall_threshold)%nat ->
  scroll_loop cfg d target fuel st0 = Some e ->
  turns cfg d target fuel st0 = before ++ st :: after ->
  Forall (fun s => size (collected s) = size (collected st)) after ->
  (scrolls (exit_state e) <= scrolls st + S stall_threshold)%nat
  /\ (last_count st = size (collected st) ->
      (scrolls (exit_state e) + no_new_tweets_count st
       <= scrolls st + stall_threshold)%nat).
Proof.
  intros Hinv Hlow Hloop Hsplit Hquiet.
  assert (Hin : In st (turns cfg d target fuel st0)).
  { rewrite Hsplit. apply in_or_app. right. left. reflexivity. }
  destruct (turns_split target fuel st0 before st after Hsplit) as (fuel' & Hturns & Hexit).
  apply (stalled_session_ends target fuel' st e).
  - exact (turns_invariant target fuel st0 st Hinv Hin).
  - exact (turns_stall_counter target fuel st0 st Hlow Hin).
  - rewrite Hturns. constructor; [ reflexivity | exact Hquiet ].
  - apply Hexit. exact Hloop.
Qed.

End RunFacts.

Section SessionClaims.
Context {L : PyLib}.

(** C2, as the code has it: the controller starts no scroll once the
    collector holds at least the target number of records, and the target
    does not cut the stream: what a session that ends without an exception
    has yielded is the whole collector as its last scroll left it, however
    many records that scroll brought, so that the stream is the first [n]
    records of the collector, [n] being the size of the collector at the
    last progress check. *)
Theorem target_stops_scrolling_not_the_stream
    (cfg : ScraperConfig) (d : Driver) (fuel : nat) (max_tweets : option Z)
    (r : SessionResult) :
  scrape_for_you_feed cfg d fuel max_tweets = Some r ->
  (exists n, (n <= size (store r))%nat
             /\ stream r = firstn n (values (store r))
             /\ tweets_collected (session r) = List.length (stream r))
  /\ (forall k st,
        effective_target cfg max_tweets <= Z.of_nat (size (collected st)) ->
        scroll_loop cfg d (effective_target cfg max_tweets) k st = Some (Finished st))
  /\ (raised r = None ->
      (0 < scroll_count r)%nat ->
      exists st,
        In st (turns cfg d (effective_target cfg max_tweets) fuel
                 (loop_start (collected_at_start d)))
        /\ Z.of_nat (size (collected st)) < effective_target cfg max_tweets
        /\ scroll_count r = S (scrolls st)
        /\ stream r = values (after_scroll d st)
        /\ exists late, store r = after_scroll d st ++ late).
Proof.
  intros H. split; [ | split ].
  - exact (session_stream_prefix cfg d fuel max_tweets r H).
  - intros k st Hreached. apply scroll_loop_stops_at_target. exact Hreached.
  - intros Hraised Hscrolled.
    destruct (scrape_for_you_feed_result cfg d _ _ _ H)
      as [(reason & c & _ & ->) | (_ & _ & e & Hloop & ->)];
      [ discriminate Hraised | ].
    destruct e as [st' | st' reason]; [ | discriminate Hraised ].
    destruct (storage_state d); [ discriminate Hraised | ].
    cbn [session_completed scroll_count stream store] in *.
    destruct (finished_after_last_scroll cfg d _ _ _ _ (loop_start_invariant _) Hloop)
      as [-> | (s & Hin & Hcond & Hs & Hy & Hlate)].
    + cbn [loop_start scrolls] in Hscrolled. lia.
    + exists s. split; [ exact Hin | ].
      unfold loop_condition in Hcond. apply andb_prop in Hcond.
      destruct Hcond as [Hbelow _]. apply Z.ltb_lt in Hbelow.
      repeat split; assumption.
Qed.

(** C5, as the code has it: with fuel for [max_scrolls] turns the session
    ends, having scrolled at most [max_scrolls] times, whatever the driver
    and the payloads do; and a session in which the size of the collector
    never increases across the scroll iterations ends after at most
    [stall_threshold] consecutive stalls: [stall_threshold] scrolls when
    nothing was collected before the first scroll, one more (the turn that
    yields those records) otherwise.  It ends [completed] when no driver
    call raises.  The same holds from any point of a session on: once the
    collector has stopped growing, the session ends within
    [stall_threshold] stalls, after at most one turn that yields what was
    not yet yielded. *)
Theorem stall_and_cap_termination
    (cfg : ScraperConfig) (d : Driver) (fuel : nat) (max_tweets : option Z) :
  (Z.to_nat (max_scrolls cfg) <= fuel)%nat ->
  exists r,
    scrape_for_you_feed cfg d fuel max_tweets = Some r
    /\ Z.of_nat (scroll_count r) <= Z.max 0 (max_scrolls cfg)
    /\ (never_grows_in_run cfg d fuel max_tweets ->
        (scroll_count r <= S stall_threshold)%nat
        /\ (size (collected_at_start d) = 0%nat ->
            (scroll_count r <= stall_threshold)%nat)
        /\ (driver_never_fails d ->
            status (session r) = completed /\ raised r = None))
    /\ (forall before st after,
          turns cfg d (effective_target cfg max_tweets) fuel
            (loop_start (collected_at_start d)) = before ++ st :: after ->
          Forall (fun s => size (collected s) = size (collected st)) after ->
          (scroll_count r <= scrolls st + S stall_threshold)%nat
          /\ (last_count st = size (collected st) ->
              (scroll_count r + no_new_tweets_count st
               <= scrolls st + stall_threshold)%nat)).
Proof.
  intros Hfuel.
  destruct (scroll_loop_terminates cfg d (effective_target cfg max_tweets) fuel
              (loop_start (collected_at_start d))) as [e He].
  { cbn [loop_start scrolls]. lia. }
  pose proof (scroll_loop_within_cap cfg d _ _ _ _ He) as Hcap.
  cbn [loop_start scrolls] in Hcap.
  assert (Hlow : (no_new_tweets_count (loop_start (collected_at_start d))
                  < stall_threshold)%nat)
    by (cbn [loop_start no_new_tweets_count]; unfold stall_threshold; lia).
  assert (Hcounter : forall before st after,
             turns cfg d (effective_target cfg max_tweets) fuel
               (loop_start (collected_at_start d)) = before ++ st :: after ->
             (no_new_tweets_count st < stall_threshold)%nat).
  { intros before st after Hsplit.
    apply (turns_stall_counter cfg d (effective_target cfg max_tweets) fuel
             (loop_start (collected_at_start d)) st Hlow).
    rewrite Hsplit. apply in_or_app. right. left. reflexivity. }
  unfold scrape_for_you_feed. fold (collected_at_start d).
  destruct (failure (goto d)) as [reason | ] eqn:Hgoto.
  { eexists. split; [ reflexivity | ]. cbn [session_failed scroll_count loop_start scrolls].
    split; [ lia | ]. split.
    - intros _. split; [ lia | ]. split; [ lia | ].
      intros (Hg & _). congruence.
    - intros before st after Hsplit _.
      pose proof (Hcounter before st after Hsplit). split; lia. }
  destruct (failure (wait_for_selector d)) as [reason | ] eqn:Hwait.
  { eexists. split; [ reflexivity | ]. cbn [session_failed scroll_count loop_start scrolls].
    split; [ lia | ]. split.
    - intros _. split; [ lia | ]. split; [ lia | ].
      intros (_ & Hw & _). congruence.
    - intros before st after Hsplit _.
      pose proof (Hcounter before st after Hsplit). split; lia. }
  rewrite He.
  assert (Hstalled : never_grows_in_run cfg d fuel max_tweets ->
                     (scrolls (exit_state e) <= S stall_threshold)%nat
                     /\ (size (collected_at_start d) = 0%nat ->
                         (scrolls (exit_state e) <= stall_threshold)%nat)).
  { intros Hquiet.
    destruct (stalled_session_ends cfg d (effective_target cfg max_tweets) fuel
                (loop_start (collected_at_start d)) e (loop_start_invariant _))
      as [Hone Hnone].
    - exact Hlow.
    - exact Hquiet.
    - exact He.
    - cbn [loop_start scrolls collected last_count no_new_tweets_count] in *.
      split; [ lia | ]. intros Hempty. specialize (Hnone (eq_sym Hempty)). lia. }
  assert (Hfrom : forall before st after,
             turns cfg d (effective_target cfg max_tweets) fuel
               (loop_start (collected_at_start d)) = before ++ st :: after ->
             Forall (fun s => size (collected s) = size (collected st)) after ->
             (scrolls (exit_state e) <= scrolls st + S stall_threshold)%nat
             /\ (last_count st = size (collected st) ->
                 (scrolls (exit_state e) + no_new_tweets_count st
                  <= scrolls st + stall_threshold)%nat)).
  { intros before st after Hsplit Hquiet.
    exact (stalled_from cfg d _ _ _ _ _ _ _ (loop_start_invariant _) Hlow He
             Hsplit Hquiet). }
  assert (Hok : driver_never_fails d ->
                exists st', e = Finished st' /\ storage_state d = None).
  { intros (_ & _ & Hs & Hall).
    destruct (scroll_loop_never_crashes cfg d _ fuel Hall _ _ He) as [st' ->]. eauto. }
  destruct e as [st | st reason];
    [ destruct (storage_state d) as [reason | ] eqn:Hstore | ];
    (eexists; split; [ reflexivity | ]);
    cbn [session_failed session_completed scroll_count exit_state session status raised]
      in *;
    (split; [ exact Hcap | ]); (split; [ | exact Hfrom ]); intros Hquiet;
    destruct (Hstalled Hquiet) as [Hone Hnone];
    (split; [ exact Hone | ]); (split; [ exact Hnone | ]); intros Hnf;
    destruct (Hok Hnf) as (st' & Hfin & Hs); try discriminate.
  split; reflexivity.
Qed.


End SessionClaims.

(** C2: with a target of 5, seven unique valid records intercepted during
    one scroll are all yielded; the session ends after that scroll. *)
Lemma seven_records_at_once_all_yielded :
  exists r,
    scrape_for_you_feed default_config seven_at_once_driver 50 (Some 5) = Some r
    /\ map tweet_id (stream r) = ["1"; "2"; "3"; "4"; "5"; "6"; "7"]
    /\ scroll_count r = 1%nat
    /\ status (session r) = completed.
Proof. eexists. repeat split; vm_compute; reflexivity. Qed.

Lemma target_stops_scrolling_not_the_stream_witness :
  exists r st,
    scrape_for_you_feed default_config seven_at_once_driver 50 (Some 5) = Some r
    /\ scroll_count r = S (scrolls st)
    /\ stream r = values (after_scroll seven_at_once_driver st)
    /\ List.length (stream r) = 7%nat.
Proof.
  assert (H : exists r,
             scrape_for_you_feed default_config seven_at_once_driver 50 (Some 5) = Some r
             /\ raised r = None
             /\ scroll_count r = 1%nat
             /\ List.length (stream r) = 7%nat)
    by (eexists; repeat split; vm_compute; reflexivity).
  destruct H as (r & Hr & Hraised & Hscrolls & Hlen).
  destruct (target_stops_scrolling_not_the_stream default_config seven_at_once_driver
              50 (Some 5) r Hr) as (_ & _ & Hlast).
  destruct (Hlast Hraised) as (st & _ & _ & Hs & Hy & _).
  { rewrite Hscrolls. lia. }
  exists r, st. repeat split; assumption.
Defined.

Lemma scripted_never_fails (script : list Iteration) :
  Forall (fun it => failure (during_scroll it) = None
                    /\ failure (during_recovery it) = None) script ->
  driver_never_fails (scripted script).
Proof.
  intros H. unfold driver_never_fails, scripted.
  cbn [goto wait_for_selector storage_state iteration quiet failure].
  repeat split; try reflexivity.
  - revert i. induction H as [ | it rest [Hit _] _ IH ]; intros [ | i ]; cbn [nth];
      try reflexivity; try exact Hit. apply IH.
  - revert i. induction H as [ | it rest [_ Hit] _ IH ]; intros [ | i ]; cbn [nth];
      try reflexivity; try exact Hit. apply IH.
Qed.

Lemma silent_driver_never_grows : collector_never_grows (scripted []).
Proof.
  intros i c. unfold scripted. cbn [iteration].
  destruct i; cbn; repeat split.
Qed.

(** A computed run keeps the size of its collector. *)
Lemma never_grows_by_evaluation
    {L : PyLib} (cfg : ScraperConfig) (d : Driver) (fuel : nat) (max_tweets : option Z) :
  forallb (fun st => Nat.eqb (size (collected st)) (size (collected_at_start d)))
    (turns cfg d (effective_target cfg max_tweets) fuel
       (loop_start (collected_at_start d))) = true ->
  never_grows_in_run cfg d fuel max_tweets.
Proof.
  intros H. unfold never_grows_in_run. apply Forall_forall. intros st Hin.
  rewrite forallb_forall in H. apply Nat.eqb_eq. exact (H st Hin).
Qed.

(** C5: a session in which nothing is collected and whose third scroll
    raises: the size of the collector never increases, and the session ends
    [failed], not [completed]. *)
Lemma stalled_session_with_failing_scroll_fails :
  never_grows_in_run default_config stalled_then_fails 50 None
  /\ exists r,
       scrape_for_you_feed default_config stalled_then_fails 50 None = Some r
       /\ status (session r) = failed
       /\ scroll_count r = 2%nat.
Proof.
  split.
  - apply never_grows_by_evaluation. vm_compute. reflexivity.
  - eexists. repeat split; vm_compute; reflexivity.
Qed.

Lemma stall_and_cap_termination_witness :
  exists r,
    scrape_for_you_feed default_config redelivering_driver 50 None = Some r
    /\ status (session r) = completed
    /\ (scroll_count r <= S stall_threshold)%nat.
Proof.
  destruct (stall_and_cap_termination default_config redelivering_driver 50 None)
    as (r & Hr & _ & Hstall & _).
  { cbn. lia. }
  destruct Hstall as (Hbound & _ & Hcompleted).
  { apply never_grows_by_evaluation. vm_compute. reflexivity. }
  destruct Hcompleted as [Hc _].
  { unfold driver_never_fails, redelivering_driver.
    cbn [goto wait_for_selector storage_state iteration].
    repeat split; reflexivity. }
  exists r. repeat split; assumption.
Defined.

(** C7: payload A (identifiers 1, 2, a record without text, 3) and then
    payload B (1 again and 4) leave the collector with the identifiers
    1, 2, 3, 4; the consumer has received [1; 2; 3] after the scroll that
    brought A and [4] more, and nothing else, after the scroll that brought
    B; the session ends [completed] with those four records. *)
Theorem two_payload_scenario :
  keys (handle_all [] [feed payload_A]) = ["1"; "2"; "3"]
  /\ keys (handle_all [] [feed payload_A; feed payload_B]) = ["1"; "2"; "3"; "4"]
  /\ option_map stream
       (scrape_for_you_feed (with_max_scrolls default_config 1) two_payload_driver 50 None)
     = Some [plain_tweet "1" "one"; plain_tweet "2" "two"; plain_tweet "3" "three"]
  /\ option_map stream
       (scrape_for_you_feed (with_max_scrolls default_config 2) two_payload_driver 50 None)
     = Some ([plain_tweet "1" "one"; plain_tweet "2" "two"; plain_tweet "3" "three"]
             ++ [plain_tweet "4" "four"])
  /\ option_map (fun r => (stream r, keys (store r), status (session r)))
       (scrape_for_you_feed default_config two_payload_driver 50 None)
     = Some ([plain_tweet "1" "one"; plain_tweet "2" "two"; plain_tweet "3" "three";
              plain_tweet "4" "four"],
             ["1"; "2"; "3"; "4"], completed).
Proof. repeat split; vm_compute; reflexivity. Qed.


(** * Further properties of the code *)

(** ** More on the response handler and its dict *)

Lemma collector_has_in_keys (id : string) (c : Collector) :
  collector_has id c = true <-> In id (keys c).
Proof.
  unfold collector_has, keys. rewrite existsb_exists, in_map_iff. split.
  - intros [entry [Hin Heq]]. apply String.eqb_eq in Heq. exists entry. auto.
  - intros [entry [Heq Hin]]. exists entry. split; [ exact Hin | ].
    apply String.eqb_eq. auto.
Qed.

Lemma collector_has_absent (id : string) (c : Collector) :
  collector_has id c = false <-> ~ In id (keys c).
Proof.
  rewrite <- collector_has_in_keys. destruct (collector_has id c); split; congruence.
Qed.

Lemma collector_get_app_present (id : string) (c more : Collector) :
  collector_has id c = true ->
  collector_get id (c ++ more) = collector_get id c.
Proof.
  unfold collector_has, collector_get. induction c as [ | entry rest IH ]; simpl.
  - discriminate.
  - destruct (String.eqb id (fst entry)); simpl; [ reflexivity | exact IH ].
Qed.

Lemma collector_has_extends (id : string) (c more : Collector) :
  collector_has id c = true -> collector_has id (c ++ more) = true.
Proof. intros H. rewrite collector_has_app, H. reflexivity. Qed.

Lemma collector_add_wf (c : Collector) (t : Tweet) :
  collector_wf c -> collector_wf (fst (collector_add c t)).
Proof.
  intros [Hnodup Hkeys]. unfold collector_add.
  destruct (collector_has (tweet_id t) c) eqn:Hhas; cbn [fst]; [ split; assumption | ].
  apply collector_has_absent in Hhas. split.
  - unfold keys in *. rewrite map_app. cbn [map fst].
    apply NoDup_app; [ exact Hnodup | repeat constructor; intros [] | ].
    intros id Hin [<- | []]. exact (Hhas Hin).
  - apply Forall_app. split; [ exact Hkeys | ]. repeat constructor.
Qed.

Section HandlerFacts.
Context {L : PyLib}.

Lemma add_all_wf (tweets : list Tweet) (c : Collector) :
  collector_wf c -> collector_wf (add_all tweets c).
Proof.
  unfold add_all. revert c. induction tweets as [ | t rest IH ]; intros c Hwf;
    cbn [fold_left]; [ exact Hwf | ].
  apply IH. apply collector_add_wf. exact Hwf.
Qed.

Lemma add_all_has (tweets : list Tweet) (c : Collector) (t : Tweet) :
  In t tweets \/ collector_has (tweet_id t) c = true ->
  collector_has (tweet_id t) (add_all tweets c) = true.
Proof.
  unfold add_all. revert c. induction tweets as [ | x rest IH ]; intros c H;
    cbn [fold_left].
  - destruct H as [[] | H]. exact H.
  - apply IH. destruct H as [[-> | Hin] | Hhas].
    + right. apply collector_has_after_add.
    + left. exact Hin.
    + right. destruct (collector_add_extends c x) as [more ->].
      apply collector_has_extends. exact Hhas.
Qed.

Lemma add_all_seen (tweets : list Tweet) (c : Collector) :
  (forall t, In t tweets -> collector_has (tweet_id t) c = true) ->
  add_all tweets c = c.
Proof.
  unfold add_all. induction tweets as [ | x rest IH ]; intros H; cbn [fold_left];
    [ reflexivity | ].
  rewrite (collector_add_seen c x) by (apply H; left; reflexivity). cbn [fst].
  apply IH. intros t Hin. apply H. right. exact Hin.
Qed.

Lemma handle_response_cases (c : Collector) (response : Response) :
  (_handle_response c response = c
   /\ (is_feed_response (url response) = false
       \/ body response = None
       \/ exists data, body response = Some data
                       /\ raises (_extract_tweets_from_response data) = true))
  \/ exists data tweets,
       is_feed_response (url response) = true
       /\ body response = Some data
       /\ _extract_tweets_from_response data = Ok tweets
       /\ _handle_response c response = add_all tweets c.
Proof.
  unfold _handle_response.
  destruct (is_feed_response (url response)); [ | left; auto ].
  destruct (body response) as [data | ]; [ | left; auto ].
  destruct (_extract_tweets_from_response data) as [tweets | e] eqn:He.
  - right. exists data, tweets. repeat split; assumption.
  - left. split; [ reflexivity | ]. right. right. exists data. rewrite He. auto.
Qed.

Lemma handle_response_wf (c : Collector) (response : Response) :
  collector_wf c -> collector_wf (_handle_response c response).
Proof.
  intros Hwf.
  destruct (handle_response_cases c response)
    as [[-> _] | (data & tweets & _ & _ & _ & ->)];
    [ exact Hwf | apply add_all_wf; exact Hwf ].
Qed.

Lemma handle_all_wf (responses : list Response) (c : Collector) :
  collector_wf c -> collector_wf (handle_all c responses).
Proof.
  unfold handle_all. revert c. induction responses as [ | r rest IH ]; intros c Hwf;
    cbn [fold_left]; [ exact Hwf | ].
  apply IH. apply handle_response_wf. exact Hwf.
Qed.

(** X1: the handler only appends: what the dict held it still holds, at the
    same positions, and the record an identifier maps to never changes. *)
Theorem handler_only_appends (c : Collector) (response : Response) :
  exists more,
    _handle_response c response = c ++ more
    /\ (size c <= size (_handle_response c response))%nat
    /\ forall id,
         collector_has id c = true ->
         collector_get id (_handle_response c response) = collector_get id c.
Proof.
  destruct (handle_response_extends c response) as [more Hmore].
  exists more. rewrite Hmore. split; [ reflexivity | ]. split.
  - unfold size. rewrite length_app. lia.
  - intros id Hid. apply collector_get_app_present. exact Hid.
Qed.

(** X2: the handler keeps the dict well formed: identifiers stay pairwise
    distinct and every record is stored under its own identifier. *)
Theorem handler_keeps_collector_wf (c : Collector) (responses : list Response) :
  collector_wf c ->
  collector_wf (handle_all c responses)
  /\ map tweet_id (values (handle_all c responses)) = keys (handle_all c responses).
Proof.
  intros Hwf. pose proof (handle_all_wf responses c Hwf) as [Hnodup Hkeys].
  split; [ split; assumption | ].
  unfold values, keys. rewrite map_map. apply map_ext_in.
  intros entry Hin. rewrite Forall_forall in Hkeys. symmetry. apply Hkeys. exact Hin.
Qed.

(** X3: a response intercepted twice counts once. *)
Theorem handler_idempotent (c : Collector) (response : Response) :
  _handle_response (_handle_response c response) response = _handle_response c response.
Proof.
  destruct (handle_response_cases c response)
    as [[Hsame _] | (data & tweets & Hurl & Hbody & Hextract & Hadd)].
  - rewrite Hsame. exact Hsame.
  - rewrite Hadd. unfold _handle_response at 1. rewrite Hurl, Hbody, Hextract.
    apply add_all_seen. intros t Hin. apply add_all_has. left. exact Hin.
Qed.

Lemma collector_get_present (c : Collector) (id : string) :
  collector_wf c ->
  collector_has id c = true ->
  exists stored, collector_get id c = Some stored /\ tweet_id stored = id.
Proof.
  intros [_ Hkeys] Hhas. unfold collector_get, collector_has in *.
  destruct (find (fun entry => String.eqb id (fst entry)) c) as [entry | ] eqn:Hfind.
  - exists (snd entry). split; [ reflexivity | ].
    apply find_some in Hfind. destruct Hfind as [Hentry Hid].
    apply String.eqb_eq in Hid. rewrite Forall_forall in Hkeys.
    rewrite <- (Hkeys entry Hentry). auto.
  - rewrite existsb_exists in Hhas. destruct Hhas as [entry [Hentry Hid]].
    eapply find_none in Hfind; [ | exact Hentry ]. cbv beta in Hfind. congruence.
Qed.

(** X4: every record a feed response yields can be looked up afterwards under
    its identifier; what is found carries that identifier, and it is the
    record the dict already held when the identifier was known. *)
Theorem handler_stores_every_record (c : Collector) (response : Response)
    (data : json) (tweets : list Tweet) (t : Tweet) :
  collector_wf c ->
  is_feed_response (url response) = true ->
  body response = Some data ->
  _extract_tweets_from_response data = Ok tweets ->
  In t tweets ->
  exists stored,
    collector_get (tweet_id t) (_handle_response c response) = Some stored
    /\ tweet_id stored = tweet_id t
    /\ (collector_has (tweet_id t) c = true ->
        collector_get (tweet_id t) c = Some stored).
Proof.
  intros Hwf Hurl Hbody Hextract Hin.
  assert (Heq : _handle_response c response = add_all tweets c).
  { unfold _handle_response. rewrite Hurl, Hbody, Hextract. reflexivity. }
  pose proof (add_all_has tweets c t (or_introl Hin)) as Hhas.
  pose proof (add_all_wf tweets c Hwf) as Hwf'.
  destruct (collector_get_present _ _ Hwf' Hhas) as [stored [Hget Hid]].
  exists stored. rewrite Heq. split; [ exact Hget | ]. split; [ exact Hid | ].
  intros Hold. rewrite <- Hget.
  destruct (handle_response_extends c response) as [more Hmore].
  rewrite Heq in Hmore. rewrite Hmore. symmetry.
  apply collector_get_app_present. exact Hold.
Qed.

(** X5: a response that is not a feed response, whose body is not JSON, or
    whose extraction raises is passed over: the responses before and after
    it are handled as if it had not been intercepted. *)
Theorem handler_passes_over_bad_responses
    (c : Collector) (before after : list Response) (bad : Response) :
  is_feed_response (url bad) = false
  \/ body bad = None
  \/ (exists data,
        body bad = Some data
        /\ raises (find_tweet_results recursion_room data) = true) ->
  handle_all c (before ++ bad :: after) = handle_all c (before ++ after).
Proof.
  intros Hbad. unfold handle_all. rewrite !fold_left_app. cbn [fold_left].
  f_equal. unfold _handle_response.
  destruct Hbad as [-> | [-> | (data & -> & Hraise)]].
  - reflexivity.
  - destruct (is_feed_response (url bad)); reflexivity.
  - destruct (is_feed_response (url bad)); [ | reflexivity ].
    unfold _extract_tweets_from_response.
    destruct (find_tweet_results recursion_room data);
      [ discriminate Hraise | reflexivity ].
Qed.

End HandlerFacts.

(** ** More on the record normalizer *)

Section NormalizerFields.
Context {L : PyLib}.

Lemma validate_urls_inv (raw : list json) (urls : list string) :
  map_result validate_str raw = Ok urls -> raw = map JStr urls.
Proof.
  revert urls. induction raw as [ | v rest IH ]; intros urls; cbn [map_result].
  - intros [= <-]. reflexivity.
  - intros H.
    destruct (bind_ok_inv _ _ _ H) as [s [Es H1]].
    destruct (bind_ok_inv _ _ _ H1) as [ss [Ess H2]].
    injection H2 as <-.
    apply validate_str_inv in Es. subst v. cbn [map]. f_equal. apply IH. exact Ess.
Qed.

Lemma media_urls_inv (entries raw : list json) :
  map_result (fun media => py_get media "media_url_https" (JStr "")) entries = Ok raw ->
  raw = map (fun media => get_or "media_url_https" (dict_items media) (JStr "")) entries
  /\ Forall (fun media => is_dict media = true) entries.
Proof.
  revert raw. induction entries as [ | m rest IH ]; intros raw; cbn [map_result].
  - intros [= <-]. split; [ reflexivity | constructor ].
  - intros H.
    destruct (bind_ok_inv _ _ _ H) as [y [Ey H1]].
    destruct (bind_ok_inv _ _ _ H1) as [ys [Eys H2]].
    injection H2 as <-.
    destruct (py_get_ok_inv _ _ _ _ Ey) as [kvs [-> ->]].
    destruct (IH _ Eys) as [-> Hall].
    split; [ reflexivity | constructor; [ reflexivity | exact Hall ] ].
Qed.

Lemma media_block_inv (entities : json) (present : bool) (raw : list json) :
  py_contains "media" entities = Ok present ->
  (if present then
     media_list <- py_getitem entities "media" ;;
     entries <- py_iter media_list ;;
     map_result (fun media => py_get media "media_url_https" (JStr "")) entries
   else Ok []) = Ok raw ->
  raw = map (fun media => get_or "media_url_https" (dict_items media) (JStr ""))
          (match entities with
           | JDict kvs => match dict_lookup "media" kvs with
                          | Some (JList entries) => entries
                          | _ => []
                          end
           | _ => []
           end).
Proof.
  intros Hc Hm. pose proof (media_present_inv _ _ _ Hc Hm) as Hp.
  destruct entities as [ | | | | s | items | kvs ]; try discriminate Hc;
    subst present; try (injection Hm as <-; reflexivity).
  unfold dict_has, py_getitem in Hm.
  destruct (dict_lookup "media" kvs) as [media_list | ];
    [ | injection Hm as <-; reflexivity ].
  cbn [bind] in Hm.
  destruct media_list as [ | | | | s | items | entries ]; try discriminate Hm;
    cbn [py_iter bind] in Hm.
  - destruct s as [ | ch rest ]; [ injection Hm as <-; reflexivity | discriminate Hm ].
  - apply media_urls_inv in Hm. tauto.
  - destruct entries as [ | [k v] rest ]; [ injection Hm as <-; reflexivity | discriminate Hm ].
Qed.

(** What an accepted record holds besides identifier and text. *)
Lemma normalizer_accept_fields (obj : json) (t : Tweet) :
  _parse_tweet_object obj = Ok (Some t) ->
  exists kvs legacy user user_legacy,
    obj = JDict kvs
    /\ legacy_of obj = JDict legacy
    /\ author_of obj = JDict user
    /\ author_legacy_of obj = JDict user_legacy
    /\ JStr (user_id t) = get_or "rest_id" user (JStr "")
    /\ JStr (username t) = get_or "screen_name" user_legacy (JStr "")
    /\ JStr (display_name t) = get_or "name" user_legacy (JStr (username t))
    /\ created_at t = match dict_lookup "created_at" legacy with
                      | Some (JStr s) => strptime s
                      | _ => None
                      end
    /\ (match dict_lookup "views" kvs with
        | Some block => exists n, views t = Some n
                                  /\ py_int (get_or "count" (dict_items block) (JInt 0)) = Ok n
        | None => views t = None
        end)
    /\ map JStr (media_urls t)
       = map (fun media => get_or "media_url_https" (dict_items media) (JStr ""))
           (media_entries obj)
    /\ validate_bool (if dict_has "retweeted_status_result" kvs then JBool true
                      else get_or "retweeted" legacy (JBool false)) = Ok (is_retweet t)
    /\ feed_type t = "for_you".
Proof.
  unfold _parse_tweet_object. intros H.
  destruct obj as [ | | | | | | kvs ]; try discriminate H.
  rewrite !py_get_dict in H. cbn [bind] in H.
  destruct (py_get (get_or "core" kvs (JDict [])) "user_results" (JDict []))
    as [wrapper | ] eqn:Ew; cbn [bind] in H; [ | discriminate H ].
  destruct (py_get wrapper "result" (JDict [])) as [user | ] eqn:Eu;
    cbn [bind] in H; [ | discriminate H ].
  destruct (py_get user "legacy" (JDict [])) as [user_legacy | ] eqn:Eul;
    cbn [bind] in H; [ | discriminate H ].
  remember (get_or "legacy" kvs (JDict kvs)) as legacy eqn:Hlegacy.
  destruct (if truthy (get_or "rest_id" kvs JNull)
            then Ok (get_or "rest_id" kvs JNull)
            else py_get legacy "id_str" JNull)
    as [tid | ] eqn:Etid; cbn [bind] in H; [ | discriminate H ].
  destruct (truthy tid) eqn:Htid; cbn [negb] in H; [ | discriminate H ].
  destruct (py_get legacy "full_text" (JStr "")) as [body | ] eqn:Ebody;
    cbn [bind] in H; [ | discriminate H ].
  destruct (truthy body) eqn:Hbody; cbn [negb] in H; [ | discriminate H ].
  destruct (py_get_ok_inv _ _ _ _ Ebody) as [l [-> ->]].
  destruct (py_get_ok_inv _ _ _ _ Ew) as [core [Ecore Hw]].
  destruct (py_get_ok_inv _ _ _ _ Eu) as [w [Ewr Hu]].
  destruct (py_get_ok_inv _ _ _ _ Eul) as [u [Eus Hul]].
  destruct (py_get user "rest_id" (JStr "")) as [uid | ] eqn:Euid;
    cbn [bind] in H; [ | discriminate H ].
  destruct (py_get user_legacy "screen_name" (JStr ""))
    as [uname | ] eqn:Euname; cbn [bind] in H; [ | discriminate H ].
  destruct (py_get_ok_inv _ _ _ _ Euname) as [ul [Eulg Hname]].
  rewrite Eulg in H.
  rewrite !py_get_dict in H. cbn [bind py_contains] in H.
  destruct (if dict_has "views" kvs then _ else _) as [vw | ] eqn:Eviews in H;
    cbn [bind] in H; [ | discriminate H ].
  destruct (if dict_has "created_at" l then _ else _) as [cr | ] eqn:Ecreated in H;
    cbn [bind] in H; [ | discriminate H ].
  destruct (py_contains "media" (get_or "extended_entities" l (JDict [])))
    as [present | ] eqn:Epresent; cbn [bind] in H; [ | discriminate H ].
  destruct (if present then _ else _) as [raw | ] eqn:Eraw in H;
    cbn [bind] in H; [ | discriminate H ].
  destruct (if dict_has "retweeted_status_result" kvs then _ else _) as [flag | ] eqn:Eflag in H;
    cbn [bind] in H; [ | discriminate H ].
  destruct (Tweet_new _) as [tw | ] eqn:Enew in H; cbn [bind] in H; [ | discriminate H ].
  injection H as <-.
  unfold Tweet_new in Enew.
  cbn [a_tweet_id a_user_id a_username a_display_name a_text a_created_at a_likes
       a_retweets a_replies a_views a_is_retweet a_is_reply a_is_quote a_has_media
       a_media_urls a_reply_to_tweet_id] in Enew.
  bind_inv Enew. injection Enew as <-.
  cbn [user_id username display_name created_at views media_urls is_retweet feed_type].
  repeat match goal with
         | Hv : validate_str _ = Ok _ |- _ => apply validate_str_inv in Hv
         end.
  exists kvs, l, u, ul.
  unfold media_entries, author_legacy_of, author_of, legacy_of. cbn [dict_items].
  rewrite <- Hlegacy, !Ecore. cbn [dict_items]. rewrite <- !Hw, !Ewr. cbn [dict_items].
  rewrite <- !Hu, !Eus. cbn [dict_items]. rewrite <- Hul, Eulg.
  rewrite Eus, py_get_dict in Euid. injection Euid as <-.
  split; [ reflexivity | ]. split; [ reflexivity | ]. split; [ reflexivity | ].
  split; [ reflexivity | ].
  split; [ congruence | ]. split; [ congruence | ].
  split; [ subst uname; congruence | ].
  split.
  { unfold dict_has, py_getitem in Ecreated.
    destruct (dict_lookup "created_at" l) as [raw_ts | ]; [ | congruence ].
    cbn [bind] in Ecreated. destruct raw_ts; try discriminate Ecreated.
    cbn in Ecreated. congruence. }
  split.
  { unfold dict_has, py_getitem in Eviews.
    destruct (dict_lookup "views" kvs) as [block | ]; [ | congruence ].
    cbn [bind] in Eviews.
    destruct (bind_ok_inv _ _ _ Eviews) as [count [Ecount Ev1]].
    destruct (bind_ok_inv _ _ _ Ev1) as [n [En Ev2]].
    injection Ev2 as <-.
    destruct (py_get_ok_inv _ _ _ _ Ecount) as [b [-> ->]]. cbn [dict_items].
    exists n. split; [ reflexivity | exact En ]. }
  split.
  { pose proof (media_block_inv _ _ _ Epresent Eraw) as Hraw.
    match goal with
    | Hu : map_result validate_str raw = Ok _ |- _ => apply validate_urls_inv in Hu;
        rewrite <- Hu
    end.
    rewrite Hraw. unfold get_or.
    destruct (dict_lookup "extended_entities" l) as [ [ | | | | | | ] | ]; reflexivity. }
  split; [ | reflexivity ].
  destruct (dict_has "retweeted_status_result" kvs); injection Eflag as <-; assumption.
Qed.

End NormalizerFields.

Section NormalizerExtras.
Context {L : PyLib}.

(** X6: on candidates of the expected shape the normalizer rejects exactly when
    the identifier or the body text is missing or empty, and accepts
    otherwise. *)
Theorem normalizer_rejects_exactly_without_identifier_or_text (obj : json) :
  expected_shape obj = true ->
  (_parse_tweet_object obj = Ok None <->
   truthy (identifier_of obj) = false \/ truthy (body_text_of obj) = false)
  /\ ((exists t, _parse_tweet_object obj = Ok (Some t)) <->
      truthy (identifier_of obj) = true /\ truthy (body_text_of obj) = true).
Proof.
  intros Hshape.
  destruct (normalizer_returns_on_expected_shape obj Hshape) as [r Hr].
  unfold identifier_of, body_text_of.
  destruct r as [t | ].
  - destruct (normalizer_accept_inv obj t Hr)
      as (kvs & legacy & -> & Hleg & Hid & Htxt & Hidne & Htxtne & _).
    rewrite Hleg. cbn [dict_items]. rewrite <- Htxt.
    assert (Hidt : truthy (if truthy (get_or "rest_id" kvs JNull)
                           then get_or "rest_id" kvs JNull
                           else get_or "id_str" legacy JNull) = true).
    { rewrite <- Hid. apply truthy_JStr. exact Hidne. }
    assert (Htt : truthy (JStr (text t)) = true) by (apply truthy_JStr; exact Htxtne).
    rewrite Hidt, Htt, Hr. split; split.
    + discriminate.
    + intros [H | H]; discriminate H.
    + auto.
    + intros _. exists t. reflexivity.
  - destruct (normalizer_reject_inv obj Hr) as (kvs & legacy & -> & Hleg & Hcase).
    rewrite Hleg. cbn [dict_items]. rewrite Hr. split; split.
    + intros _. exact Hcase.
    + reflexivity.
    + intros [t Ht]. discriminate Ht.
    + intros [H1 H2]. destruct Hcase; congruence.
Qed.

(** X7: what every accepted record satisfies: a non-empty identifier and body
    text taken from the candidate, the source-feed tag, the URL built from
    handle and identifier, a reply flag that agrees with the reply
    reference, and no media URL when the media flag is off. *)
Theorem accepted_record_invariants (obj : json) (t : Tweet) :
  _parse_tweet_object obj = Ok (Some t) ->
  JStr (tweet_id t) = identifier_of obj
  /\ JStr (text t) = body_text_of obj
  /\ tweet_id t <> ""
  /\ text t <> ""
  /\ feed_type t = "for_you"
  /\ tweet_url t = ("https://x.com/" ++ username t ++ "/status/" ++ tweet_id t)%string
  /\ (is_reply t = true <-> exists s, reply_to_tweet_id t = Some s /\ s <> "")
  /\ (has_media t = false -> media_urls t = []).
Proof.
  intros H.
  destruct (normalizer_accept_inv obj t H)
    as (kvs & legacy & -> & Hleg & Hid & Htxt & Hidne & Htxtne & _ & _ & _ & Hmedia
        & Hreply & Hto & _ & Hurl).
  destruct (normalizer_accept_fields _ t H)
    as (kvs' & legacy' & user & ul & [= <-] & Hleg' & _ & _ & _ & _ & _ & _ & _
        & Hurls & _ & Hfeed).
  unfold identifier_of, body_text_of. rewrite Hleg. cbn [dict_items].
  repeat split; try assumption.
  - intros Hr. rewrite Hreply in Hr.
    destruct (get_or "in_reply_to_status_id_str" legacy JNull) as [ | | | | ref | | ];
      try discriminate Hto; try discriminate Hr.
    injection Hto as <-. exists ref. split; [ reflexivity | ].
    apply truthy_JStr. exact Hr.
  - intros [s [Hs Hne]]. rewrite Hreply.
    destruct (get_or "in_reply_to_status_id_str" legacy JNull) as [ | | | | ref | | ];
      try discriminate Hto.
    + cbn in Hto. congruence.
    + cbn in Hto. injection Hto as Hto. rewrite Hs in Hto. injection Hto as ->.
      apply truthy_JStr. exact Hne.
  - intros Hoff. rewrite Hmedia in Hoff.
    assert (Hnone : media_entries (JDict kvs) = []).
    { unfold media_entries, media_key_present, dict_has in *.
      destruct (dict_lookup "extended_entities" (dict_items (legacy_of (JDict kvs))))
        as [ [ | | | | | | entities ] | ]; try reflexivity.
      destruct (dict_lookup "media" entities); [ discriminate Hoff | reflexivity ]. }
    rewrite Hnone in Hurls. cbn [map] in Hurls.
    destruct (media_urls t); [ reflexivity | discriminate Hurls ].
Qed.

(** X8: the author block is optional: without a [core] key the author fields
    are empty strings, and without a [name] the display name is the handle. *)
Theorem author_fields_default (obj : json) (t : Tweet) :
  _parse_tweet_object obj = Ok (Some t) ->
  (dict_lookup "core" (dict_items obj) = None ->
   user_id t = "" /\ username t = "" /\ display_name t = ""
   /\ tweet_url t = ("https://x.com//status/" ++ tweet_id t)%string)
  /\ (dict_lookup "name" (dict_items (author_legacy_of obj)) = None ->
      display_name t = username t).
Proof.
  intros H.
  destruct (normalizer_accept_inv obj t H)
    as (kvs0 & legacy0 & _ & _ & _ & _ & _ & _ & _ & _ & _ & _ & _ & _ & _ & Hurl).
  destruct (normalizer_accept_fields _ t H)
    as (kvs & legacy & user & ul & -> & _ & Huser & Hul & Huid & Huname & Hdname & _).
  split.
  - cbn [dict_items]. intros Hcore.
    unfold author_legacy_of, author_of, get_or in Huser, Hul. cbn [dict_items] in Huser, Hul.
    rewrite Hcore in Huser, Hul. cbn in Huser, Hul.
    injection Huser as <-. injection Hul as <-.
    cbn in Huid, Huname. injection Huid as Huid. injection Huname as Huname.
    rewrite Huname in Hdname. cbn in Hdname. injection Hdname as Hdname.
    rewrite Hurl, Huid, Huname, Hdname. repeat split.
  - rewrite Hul. cbn [dict_items]. intros Hname.
    unfold get_or in Hdname. rewrite Hname in Hdname. congruence.
Qed.

(** X9: the optional fields of an accepted record: the timestamp is what
    [strptime] makes of the [created_at] string, absent when there is none
    or it does not parse; the view count is present exactly when the
    candidate has a [views] key; there is one media URL per entry of the
    media array, in order. *)
Theorem optional_fields_of_accepted_record (obj : json) (t : Tweet) :
  _parse_tweet_object obj = Ok (Some t) ->
  created_at t = match dict_lookup "created_at" (dict_items (legacy_of obj)) with
                 | Some (JStr s) => strptime s
                 | _ => None
                 end
  /\ (views t = None <-> dict_has "views" (dict_items obj) = false)
  /\ List.length (media_urls t) = List.length (media_entries obj)
  /\ map JStr (media_urls t)
     = map (fun media => get_or "media_url_https" (dict_items media) (JStr ""))
         (media_entries obj).
Proof.
  intros H.
  destruct (normalizer_accept_fields _ t H)
    as (kvs & legacy & user & ul & -> & Hleg & _ & _ & _ & _ & _ & Hcreated & Hviews
        & Hurls & _).
  rewrite Hleg. cbn [dict_items]. split; [ exact Hcreated | ]. split.
  - unfold dict_has. destruct (dict_lookup "views" kvs) as [block | ].
    + destruct Hviews as [n [Hn _]]. rewrite Hn. split; discriminate.
    + rewrite Hviews. split; reflexivity.
  - split; [ | exact Hurls ].
    apply (f_equal (@List.length json)) in Hurls. rewrite !length_map in Hurls.
    exact Hurls.
Qed.

End NormalizerExtras.

Ltac same_step :=
  match goal with
  | |- same_up_to_timestamp (bind ?r _) (bind ?r _) =>
      destruct r; cbn [bind]; [ | exact eq_refl ]
  | |- same_up_to_timestamp (if ?b then _ else _) (if ?b then _ else _) =>
      destruct b; [ exact I | ]
  end.

(** X10: how timestamps parse has no bearing on the outcome: with any other
    parser in place of [strptime] the normalizer accepts, rejects or raises
    on the same candidates, raises the same exception, and produces the same
    record up to its timestamp. *)
Theorem outcome_independent_of_timestamp_parsing
    (L : PyLib) (parser : string -> option datetime) (obj : json) :
  same_up_to_timestamp
    (@_parse_tweet_object L obj)
    (@_parse_tweet_object (with_strptime L parser) obj).
Proof.
  unfold _parse_tweet_object.
  change (@py_int (with_strptime L parser)) with (@py_int L).
  change (@Tweet_new (with_strptime L parser)) with (@Tweet_new L).
  assert (Hcreated :
    forall (k1 k2 : option datetime -> result (option Tweet)) (b : bool) (legacy : json),
      (forall c1 c2, same_up_to_timestamp (k1 c1) (k2 c2)) ->
      same_up_to_timestamp
        (bind (if b then raw <- py_getitem legacy "created_at" ;; @parse_created_at L raw
               else Ok None) k1)
        (bind (if b then raw <- py_getitem legacy "created_at" ;;
                         @parse_created_at (with_strptime L parser) raw
               else Ok None) k2)).
  { intros k1 k2 b legacy Hk. destruct b; cbn [bind]; [ | apply Hk ].
    destruct (py_getitem legacy "created_at") as [raw | e]; cbn [bind];
      [ | exact eq_refl ].
    destruct raw; cbn [parse_created_at bind]; try exact eq_refl. apply Hk. }
  repeat same_step.
  match goal with
  | |- same_up_to_timestamp (bind _ ?k1) (bind _ ?k2) => apply (Hcreated k1 k2)
  end.
  intros c1 c2. repeat same_step.
  unfold Tweet_new.
  cbn [a_tweet_id a_user_id a_username a_display_name a_text a_created_at a_likes
       a_retweets a_replies a_views a_is_retweet a_is_reply a_is_quote a_has_media
       a_media_urls a_reply_to_tweet_id].
  repeat match goal with
         | |- same_up_to_timestamp (bind (bind ?r _) _) (bind (bind ?r _) _) =>
             destruct r; cbn [bind]; [ | exact eq_refl ]
         end.
  cbn. repeat split.
Qed.

(** ** More on the payload walker *)

Lemma nodes_eq (v : json) : nodes v = v :: flat_map nodes (children v).
Proof.
  destruct v as [ | | | | | items | kvs ]; cbn [nodes children flat_map];
    try reflexivity; f_equal.
  induction kvs as [ | [k x] rest IH ]; [ reflexivity | ].
  cbn [map flat_map snd]. f_equal. exact IH.
Qed.

Lemma nodes_self (v : json) : In v (nodes v).
Proof. rewrite nodes_eq. left. reflexivity. Qed.

Lemma nodes_child (v child x : json) :
  In child (children v) -> In x (nodes child) -> In x (nodes v).
Proof.
  intros Hc Hx. rewrite nodes_eq. right. apply in_flat_map. exists child. auto.
Qed.

Lemma dict_lookup_in (k : string) (kvs : list (string * json)) (v : json) :
  dict_lookup k kvs = Some v -> In v (map snd kvs).
Proof.
  induction kvs as [ | [k' x] rest IH ]; cbn [dict_lookup map snd]; [ discriminate | ].
  destruct (String.eqb k k'); [ intros [= ->]; left; reflexivity | ].
  intros H. right. apply IH. exact H.
Qed.

Lemma emit_wrapped_sound (v : json) (cs : list json) :
  emit_wrapped v = Ok cs ->
  Forall (fun c => In c (nodes v) /\ truthy c = true) cs.
Proof.
  destruct v as [ | | | | | items | kvs ]; cbn [emit_wrapped];
    try (intros [= <-]; constructor).
  unfold dict_has, py_getitem.
  destruct (dict_lookup "tweet_results" kvs) as [wrapper | ] eqn:Hw;
    [ | intros [= <-]; constructor ].
  cbn [bind]. intros H.
  destruct (bind_ok_inv _ _ _ H) as [result [Hres H1]]. injection H1 as <-.
  destruct (truthy result) eqn:Ht; [ | constructor ].
  constructor; [ | constructor ]. split; [ | exact Ht ].
  destruct wrapper as [ | | | | | | w ]; try discriminate Hres.
  cbn [py_get] in Hres.
  destruct (dict_lookup "result" w) as [found | ] eqn:Hfound.
  - injection Hres as <-.
    apply (nodes_child _ (JDict w)).
    + cbn [children]. exact (dict_lookup_in _ _ _ Hw).
    + apply (nodes_child _ found); [ | apply nodes_self ].
      cbn [children]. exact (dict_lookup_in _ _ _ Hfound).
  - injection Hres as <-. discriminate Ht.
Qed.

Lemma emit_own_sound (v : json) (cs : list json) :
  emit_own v = Ok cs ->
  Forall (fun c => In c (nodes v) /\ truthy c = true) cs.
Proof.
  destruct v as [ | | | | | items | kvs ]; cbn [emit_own];
    try (intros [= <-]; constructor).
  unfold dict_has. destruct (dict_lookup "legacy" kvs) eqn:Hl;
    [ | intros [= <-]; constructor ].
  intros H. destruct (bind_ok_inv _ _ _ H) as [legacy [_ H1]].
  destruct (bind_ok_inv _ _ _ H1) as [has_text [_ H2]]. injection H2 as <-.
  destruct has_text; constructor; [ | constructor ].
  split; [ apply nodes_self | ].
  destruct kvs; [ discriminate Hl | reflexivity ].
Qed.

Lemma walk_children_sound (room : nat) (l : list json) :
  (forall v cs, find_tweet_results room v = Ok cs ->
                Forall (fun c => In c (nodes v) /\ truthy c = true) cs) ->
  forall cs,
    walk_children room l = Ok cs ->
    Forall (fun c => In c (flat_map nodes l) /\ truthy c = true) cs.
Proof.
  intros Hv. induction l as [ | v rest IH ]; intros cs; cbn [walk_children].
  - intros [= <-]. constructor.
  - intros H. destruct (bind_ok_inv _ _ _ H) as [here [Ehere H1]].
    destruct (bind_ok_inv _ _ _ H1) as [there [Ethere H2]]. injection H2 as <-.
    apply Forall_app. split.
    + eapply Forall_impl; [ | exact (Hv v here Ehere) ].
      intros c [Hin Ht]. split; [ | exact Ht ]. cbn [flat_map]. apply in_or_app. auto.
    + eapply Forall_impl; [ | exact (IH there Ethere) ].
      intros c [Hin Ht]. split; [ | exact Ht ]. cbn [flat_map]. apply in_or_app. auto.
Qed.

(** X11: the walker invents nothing: every candidate it returns is a node of the
    payload, and is non-empty. *)
Theorem walker_candidates_are_payload_nodes
    (room : nat) (payload : json) (cs : list json) :
  find_tweet_results room payload = Ok cs ->
  Forall (fun c => In c (nodes payload) /\ truthy c = true) cs.
Proof.
  revert payload cs. induction room as [ | room IH ]; intros payload cs;
    [ discriminate | ].
  rewrite find_tweet_results_eq. intros H.
  destruct (bind_ok_inv _ _ _ H) as [wrapped [Ew H1]].
  destruct (bind_ok_inv _ _ _ H1) as [own [Eo H2]].
  destruct (bind_ok_inv _ _ _ H2) as [nested [En H3]]. injection H3 as <-.
  apply Forall_app. split; [ exact (emit_wrapped_sound _ _ Ew) | ].
  apply Forall_app. split; [ exact (emit_own_sound _ _ Eo) | ].
  eapply Forall_impl; [ | exact (walk_children_sound room _ IH nested En) ].
  intros c [Hin Ht]. split; [ | exact Ht ]. rewrite nodes_eq. right. exact Hin.
Qed.


(** ** More on the extraction and the session *)

Section ExtractionExtras.
Context {L : PyLib}.



End ExtractionExtras.

Lemma NoDup_firstn {A : Type} (n : nat) (l : list A) : NoDup l -> NoDup (firstn n l).
Proof.
  intros H. rewrite <- (firstn_skipn n l) in H.
  apply NoDup_app_remove_r in H. exact H.
Qed.

Lemma prefix_nodup (c : Collector) (n : nat) :
  collector_wf c -> NoDup (map tweet_id (firstn n (values c))).
Proof.
  intros [Hnodup Hkeys]. rewrite <- firstn_map. apply NoDup_firstn.
  replace (map tweet_id (values c)) with (keys c); [ exact Hnodup | ].
  unfold values, keys. rewrite map_map. apply map_ext_in.
  intros entry Hin. rewrite Forall_forall in Hkeys. apply Hkeys. exact Hin.
Qed.

Section SessionExtras.
Context {L : PyLib}.
Variable cfg : ScraperConfig.
Variable d : Driver.

Lemma scroll_loop_collected_wf (target : Z) (fuel : nat) :
  forall st e,
    collector_wf (collected st) ->
    scroll_loop cfg d target fuel st = Some e ->
    collector_wf (collected (exit_state e)).
Proof.
  induction fuel as [ | fuel IH ]; intros st e Hwf.
  - rewrite scroll_loop_out_of_fuel. destruct (loop_condition cfg target st);
      [ discriminate | ]. intros [= <-]. exact Hwf.
  - rewrite scroll_loop_unfold. destruct (loop_condition cfg target st);
      [ | intros [= <-]; exact Hwf ].
    unfold loop_body.
    pose proof (handle_all_wf (arrived (during_scroll (iteration d (scrolls st))))
                  _ Hwf) as Hwf1.
    destruct (failure (during_scroll (iteration d (scrolls st)))).
    { intros [= <-]. exact Hwf1. }
    destruct (Nat.ltb _ _).
    { apply IH. cbn [collected]. apply handle_all_wf. exact Hwf1. }
    set (c1 := handle_all (collected st)
                 (arrived (during_scroll (iteration d (scrolls st))))) in *.
    set (c2 := if Nat.leb recovery_threshold (S (no_new_tweets_count st))
               then handle_all c1 (arrived (during_recovery (iteration d (scrolls st))))
               else c1).
    assert (Hwf2 : collector_wf c2).
    { subst c2. destruct (Nat.leb _ _); [ apply handle_all_wf | ]; exact Hwf1. }
    destruct (if Nat.leb recovery_threshold (S (no_new_tweets_count st))
              then failure (during_recovery (iteration d (scrolls st)))
              else None).
    { intros [= <-]. exact Hwf2. }
    destruct (Nat.leb stall_threshold _).
    { intros [= <-]. exact Hwf2. }
    apply IH. exact Hwf2.
Qed.

Lemma collector_wf_nil : collector_wf [].
Proof. split; constructor. Qed.

Lemma session_store_wf (fuel : nat) (max_tweets : option Z) (r : SessionResult) :
  scrape_for_you_feed cfg d fuel max_tweets = Some r -> collector_wf (store r).
Proof.
  intros H.
  destruct (scrape_for_you_feed_result cfg d _ _ _ H)
    as [(reason & c & Hfail & ->) | (_ & _ & e & Hloop & ->)].
  - revert H. unfold scrape_for_you_feed.
    destruct Hfail as [-> | [-> ->]]; intros [= <-];
      cbn [store session_failed collected loop_start];
      repeat apply handle_all_wf; exact collector_wf_nil.
  - assert (Hstart : collector_wf (collected (loop_start (collected_at_start d)))).
    { cbn [loop_start collected]. unfold collected_at_start.
      repeat apply handle_all_wf. exact collector_wf_nil. }
    pose proof (scroll_loop_collected_wf _ _ _ _ Hstart Hloop) as Hend.
    destruct e as [st | st reason]; [ destruct (storage_state d) | ]; exact Hend.
Qed.

(** X14: no identifier is yielded twice in a session, every yielded record is
    in the collector, and the collector ends with one entry per
    identifier. *)
Theorem session_yields_each_identifier_once
    (fuel : nat) (max_tweets : option Z) (r : SessionResult) :
  scrape_for_you_feed cfg d fuel max_tweets = Some r ->
  NoDup (map tweet_id (stream r))
  /\ incl (stream r) (values (store r))
  /\ collector_wf (store r).
Proof.
  intros H. pose proof (session_store_wf _ _ _ H) as Hwf.
  destruct (session_stream_prefix cfg d fuel max_tweets r H) as (n & _ & Hstream & _).
  split; [ | split; [ | exact Hwf ] ].
  - rewrite Hstream. apply prefix_nodup. exact Hwf.
  - rewrite Hstream. intros t Hin.
    rewrite <- (firstn_skipn n (values (store r))). apply in_or_app. left. exact Hin.
Qed.

(** X15: the loop is skipped when the collector already holds the target number
    of records after the page has loaded, or when the scroll cap is not
    positive: the session completes without a scroll and yields nothing,
    the records intercepted during the page load included. *)
Theorem loop_skipped_when_target_met_or_no_scroll_allowed
    (fuel : nat) (max_tweets : option Z) :
  failure (goto d) = None ->
  failure (wait_for_selector d) = None ->
  storage_state d = None ->
  effective_target cfg max_tweets <= Z.of_nat (size (collected_at_start d))
  \/ max_scrolls cfg <= 0 ->
  exists r,
    scrape_for_you_feed cfg d fuel max_tweets = Some r
    /\ status (session r) = completed
    /\ scroll_count r = 0%nat
    /\ stream r = []
    /\ store r = collected_at_start d.
Proof.
  intros Hg Hw Hs Hskip. unfold scrape_for_you_feed. fold (collected_at_start d).
  rewrite Hg, Hw.
  assert (Hloop : scroll_loop cfg d (effective_target cfg max_tweets) fuel
                    (loop_start (collected_at_start d))
                  = Some (Finished (loop_start (collected_at_start d)))).
  { destruct fuel; cbn [scroll_loop loop_start collected scrolls];
      (destruct Hskip as [Ht | Hc];
       [ replace (_ <? effective_target cfg max_tweets) with false
           by (symmetry; apply Z.ltb_ge; exact Ht); reflexivity
       | replace (Z.of_nat 0 <? max_scrolls cfg) with false
           by (symmetry; apply Z.ltb_ge; cbn; lia);
         rewrite andb_false_r; reflexivity ]). }
  rewrite Hloop, Hs. eexists. split; [ reflexivity | ]. cbn. repeat split.
Qed.

End SessionExtras.

(** ** The sibling generators *)

Lemma slice_length {A : Type} (a b : nat) (l : list A) :
  (b <= List.length l)%nat -> List.length (slice a b l) = (b - a)%nat.
Proof.
  intros H. unfold slice. rewrite length_firstn, length_skipn. lia.
Qed.

Lemma slice_map {A B : Type} (f : A -> B) (a b : nat) (l : list A) :
  slice a b (map f l) = map f (slice a b l).
Proof. unfold slice. rewrite skipn_map, firstn_map. reflexivity. Qed.

Lemma slice_middle {A : Type} (a b : nat) (x y z : list A) :
  List.length x = a -> List.length y = (b - a)%nat -> slice a b (x ++ y ++ z) = y.
Proof.
  intros Hx Hy. unfold slice.
  rewrite skipn_app, Hx, Nat.sub_diag. cbn [skipn].
  rewrite skipn_all2 by lia. cbn [app].
  rewrite firstn_app, Hy, Nat.sub_diag. cbn [firstn].
  rewrite app_nil_r. rewrite <- Hy. apply firstn_all.
Qed.

Lemma retag_entries_values (tag : string) (a b : nat) (c : Collector) :
  values (retag_entries tag a b c)
  = firstn a (values c) ++ map (set_feed_type tag) (slice a b (values c))
    ++ skipn b (values c).
Proof.
  unfold retag_entries, values. rewrite !map_app, map_map. cbn [snd].
  rewrite firstn_map, skipn_map, slice_map, map_map. reflexivity.
Qed.

Lemma slice_split {A : Type} (a b : nat) (l : list A) :
  (a <= b)%nat -> firstn a l ++ slice a b l ++ skipn b l = l.
Proof.
  intros Hab. rewrite app_assoc, firstn_slice by exact Hab. apply firstn_skipn.
Qed.

Lemma retag_entries_keys (tag : string) (a b : nat) (c : Collector) :
  (a <= b)%nat -> keys (retag_entries tag a b c) = keys c.
Proof.
  intros Hab. unfold retag_entries, keys. rewrite !map_app, map_map. cbn [fst].
  transitivity (firstn a (map fst c) ++ slice a b (map fst c) ++ skipn b (map fst c));
    [ | apply slice_split; exact Hab ].
  rewrite firstn_map, skipn_map, slice_map. reflexivity.
Qed.

Lemma retag_entries_size (tag : string) (a b : nat) (c : Collector) :
  (a <= b)%nat -> size (retag_entries tag a b c) = size c.
Proof.
  intros Hab. unfold size.
  rewrite <- (length_map fst (retag_entries tag a b c)), <- (length_map fst c).
  fold (keys (retag_entries tag a b c)). fold (keys c).
  rewrite retag_entries_keys by exact Hab. reflexivity.
Qed.

Lemma retag_entries_wf (tag : string) (a b : nat) (c : Collector) :
  (a <= b)%nat -> collector_wf c -> collector_wf (retag_entries tag a b c).
Proof.
  intros Hab [Hnodup Hkeys]. split.
  - rewrite retag_entries_keys by exact Hab. exact Hnodup.
  - unfold retag_entries. rewrite Forall_forall in *.
    intros entry Hin. apply in_app_or in Hin. destruct Hin as [Hin | Hin].
    + apply Hkeys. rewrite <- (firstn_skipn a c). apply in_or_app. auto.
    + apply in_app_or in Hin. destruct Hin as [Hin | Hin].
      * apply in_map_iff in Hin. destruct Hin as [old [<- Hold]]. cbn [fst snd set_feed_type tweet_id].
        apply Hkeys. unfold slice in Hold.
        rewrite <- (firstn_skipn a c). apply in_or_app. right.
        rewrite <- (firstn_skipn (b - a) (skipn a c)). apply in_or_app. auto.
      * apply Hkeys. rewrite <- (firstn_skipn b c). apply in_or_app. auto.
Qed.

Section TimelineFacts.
Context {L : PyLib}.
Variable cfg : ScraperConfig.
Variable d : Driver.

Lemma timeline_loop_invariant (tag : string) (max_tweets : Z) (fuel : nat) :
  forall st e,
    timeline_invariant tag st ->
    timeline_loop cfg d tag max_tweets fuel st = Some e ->
    timeline_invariant tag (timeline_exit_state e).
Proof.
  induction fuel as [ | fuel IH ]; intros st e Hinv; cbn [timeline_loop].
  - destruct (_ && _); [ discriminate | ]. intros [= <-]. exact Hinv.
  - destruct (_ && _); [ | intros [= <-]; exact Hinv ].
    destruct Hinv as (Hle & Hy & Htag & Hwf).
    destruct (handle_all_extends (arrived (during_scroll (iteration d (t_scrolls st))))
                (t_collected st)) as [m1 E1].
    pose proof (handle_all_wf (arrived (during_scroll (iteration d (t_scrolls st))))
                  _ Hwf) as Hwf1.
    rewrite E1 in *.
    assert (Hkeep : timeline_invariant tag
                      {| t_collected := t_collected st ++ m1;
                         t_scrolls := S (t_scrolls st);
                         t_last_count := t_last_count st;
                         t_yielded := t_yielded st |}
                    /\ timeline_invariant tag
                         {| t_collected := t_collected st ++ m1;
                            t_scrolls := t_scrolls st;
                            t_last_count := t_last_count st;
                            t_yielded := t_yielded st |}).
    { unfold timeline_invariant.
      cbn [t_collected t_last_count t_yielded].
      rewrite firstn_values_extends by exact Hle.
      unfold size in *. rewrite length_app. repeat split; try assumption; try lia; apply Hwf1. }
    destruct (failure (during_scroll (iteration d (t_scrolls st)))) as [reason | ].
    { intros [= <-]. apply Hkeep. }
    destruct (Nat.ltb_spec (t_last_count st) (size (t_collected st ++ m1))) as [Hlt | Hge];
      [ | apply IH; apply Hkeep ].
    apply IH. unfold timeline_invariant.
    cbn [t_collected t_last_count t_yielded].
    set (c1 := t_collected st ++ m1) in *.
    set (last := t_last_count st) in *.
    set (tagged := retag_entries tag last (size c1) c1).
    assert (Hsize : size tagged = size c1) by (apply retag_entries_size; lia).
    assert (Hwft : collector_wf tagged) by (apply retag_entries_wf; [ lia | exact Hwf1 ]).
    assert (Hvalues : values tagged
                      = firstn last (values c1)
                        ++ map (set_feed_type tag) (slice last (size c1) (values c1)) ++ []).
    { unfold tagged. rewrite retag_entries_values. do 2 f_equal.
      apply skipn_all2. unfold values, size. rewrite length_map. lia. }
    assert (Hlen1 : List.length (firstn last (values c1)) = last).
    { rewrite length_firstn. unfold values, size in *. rewrite length_map. lia. }
    assert (Hlen2 : List.length (map (set_feed_type tag) (slice last (size c1) (values c1)))
                    = (size c1 - last)%nat).
    { rewrite length_map. apply slice_length. unfold values, size. rewrite length_map. lia. }
    assert (Hnew : slice last (size c1) (values tagged)
                   = map (set_feed_type tag) (slice last (size c1) (values c1))).
    { rewrite Hvalues. apply slice_middle; assumption. }
    destruct (handle_all_extends (during_yield (iteration d (t_scrolls st))) tagged)
      as [m2 E2].
    rewrite E2.
    split; [ unfold size in *; rewrite length_app; lia | ].
    split; [ | split ].
    + rewrite firstn_values_extends by lia.
      rewrite <- (firstn_slice last (size c1) (values tagged)) by lia.
      f_equal. rewrite Hy, Hvalues. rewrite firstn_app, Hlen1, Nat.sub_diag.
      cbn [firstn]. rewrite app_nil_r. rewrite firstn_firstn, Nat.min_id.
      unfold c1. rewrite firstn_values_extends by exact Hle. reflexivity.
    + apply Forall_app. split; [ exact Htag | ]. rewrite Hnew.
      apply Forall_forall. intros t Hin. apply in_map_iff in Hin.
      destruct Hin as [old [<- _]]. reflexivity.
    + rewrite <- E2. apply handle_all_wf. exact Hwft.
Qed.

Lemma timeline_loop_terminates (tag : string) (max_tweets : Z) (fuel : nat) :
  forall st,
    (Z.to_nat (max_scrolls cfg) - t_scrolls st <= fuel)%nat ->
    exists e,
      timeline_loop cfg d tag max_tweets fuel st = Some e
      /\ Z.of_nat (t_scrolls (timeline_exit_state e))
         <= Z.max (Z.of_nat (t_scrolls st)) (max_scrolls cfg).
Proof.
  induction fuel as [ | fuel IH ]; intros st Hfuel; cbn [timeline_loop].
  - destruct (Z.ltb_spec (Z.of_nat (t_scrolls st)) (max_scrolls cfg)) as [Hlt | Hge];
      [ lia | ].
    rewrite andb_false_r. eexists. split; [ reflexivity | ].
    cbn [timeline_exit_state]. lia.
  - destruct (_ && _) eqn:Hcond;
      [ | eexists; split; [ reflexivity | cbn [timeline_exit_state]; lia ] ].
    apply andb_prop in Hcond. destruct Hcond as [_ Hcap]. apply Z.ltb_lt in Hcap.
    destruct (failure (during_scroll (iteration d (t_scrolls st)))).
    { eexists. split; [ reflexivity | ]. cbn [timeline_exit_state t_scrolls]. lia. }
    destruct (Nat.ltb _ _).
    + match goal with
      | |- exists e, timeline_loop _ _ _ _ _ ?s = _ /\ _ =>
          destruct (IH s) as [e [He Hb]]; [ cbn [t_scrolls]; lia | ]
      end.
      exists e. split; [ exact He | ]. cbn [t_scrolls] in Hb. lia.
    + match goal with
      | |- exists e, timeline_loop _ _ _ _ _ ?s = _ /\ _ =>
          destruct (IH s) as [e [He Hb]]; [ cbn [t_scrolls]; lia | ]
      end.
      exists e. split; [ exact He | ]. cbn [t_scrolls] in Hb. lia.
Qed.

(** With a dict that does not grow the loop has no reason to stop before
    the cap. *)
Lemma quiet_timeline_runs_to_cap (tag : string) (max_tweets : Z) (fuel : nat) :
  driver_never_fails d ->
  collector_never_grows d ->
  forall st,
    Z.of_nat (size (t_collected st)) < max_tweets ->
    (Z.to_nat (max_scrolls cfg) - t_scrolls st <= fuel)%nat ->
    exists st',
      timeline_loop cfg d tag max_tweets fuel st = Some (Exhausted st')
      /\ t_scrolls st' = Nat.max (t_scrolls st) (Z.to_nat (max_scrolls cfg))
      /\ size (t_collected st') = size (t_collected st).
Proof.
  intros (_ & _ & _ & Hturn) Hquiet.
  induction fuel as [ | fuel IH ]; intros st Hsize Hfuel; cbn [timeline_loop].
  - destruct (Z.ltb_spec (Z.of_nat (t_scrolls st)) (max_scrolls cfg)) as [Hlt | Hge];
      [ lia | ].
    rewrite andb_false_r. exists st. repeat split. lia.
  - destruct (Z.ltb_spec (Z.of_nat (t_scrolls st)) (max_scrolls cfg)) as [Hlt | Hge].
    2:{ rewrite andb_false_r. exists st. repeat split. lia. }
    replace (Z.of_nat (size (t_collected st)) <? max_tweets) with true
      by (symmetry; apply Z.ltb_lt; exact Hsize).
    cbn [andb].
    destruct (Hturn (t_scrolls st)) as [-> _].
    destruct (Hquiet (t_scrolls st) (t_collected st)) as (Hs1 & _ & _).
    set (c1 := handle_all (t_collected st)
                 (arrived (during_scroll (iteration d (t_scrolls st))))) in *.
    destruct (Nat.ltb_spec (t_last_count st) (size c1)) as [Hprog | Hstall].
    + match goal with
      | |- exists st', timeline_loop _ _ _ _ _ ?s = _ /\ _ =>
          destruct (IH s) as (st' & He & Hsc & Hsz)
      end.
      * cbn [t_collected].
        destruct (Hquiet (t_scrolls st) (retag_entries tag (t_last_count st) (size c1) c1))
          as (_ & -> & _).
        rewrite retag_entries_size by lia. rewrite Hs1. exact Hsize.
      * cbn [t_scrolls]. lia.
      * exists st'. split; [ exact He | ]. cbn [t_scrolls t_collected] in *.
        split; [ lia | ]. rewrite Hsz.
        destruct (Hquiet (t_scrolls st) (retag_entries tag (t_last_count st) (size c1) c1))
          as (_ & -> & _).
        rewrite retag_entries_size by lia. exact Hs1.
    + match goal with
      | |- exists st', timeline_loop _ _ _ _ _ ?s = _ /\ _ =>
          destruct (IH s) as (st' & He & Hsc & Hsz)
      end.
      * cbn [t_collected]. rewrite Hs1. exact Hsize.
      * cbn [t_scrolls]. lia.
      * exists st'. split; [ exact He | ]. cbn [t_scrolls t_collected] in *.
        split; [ lia | ]. rewrite Hsz. exact Hs1.
Qed.

End TimelineFacts.

Section TimelineExtras.
Context {L : PyLib}.
Variable cfg : ScraperConfig.
Variable d : Driver.

Lemma timeline_start_invariant (tag : string) (c : Collector) :
  collector_wf c -> timeline_invariant tag (timeline_start c).
Proof.
  intros Hwf. unfold timeline_invariant.
  cbn [timeline_start t_last_count t_collected t_yielded].
  repeat split; try apply Hwf; try constructor. lia.
Qed.

Lemma scrape_timeline_tags (url tag : string) (fuel : nat) (max_tweets : Z)
    (r : TimelineResult) :
  scrape_timeline cfg d url tag fuel max_tweets = Some r ->
  visited r = url
  /\ Forall (fun t => feed_type t = tag) (tl_stream r)
  /\ (exists n, tl_stream r = firstn n (values (tl_store r)))
  /\ NoDup (map tweet_id (tl_stream r)).
Proof.
  unfold scrape_timeline.
  assert (Hall : forall st,
             timeline_invariant tag st ->
             Forall (fun t => feed_type t = tag) (t_yielded st)
             /\ (exists n, t_yielded st = firstn n (values (t_collected st)))
             /\ NoDup (map tweet_id (t_yielded st))).
  { intros st (Hle & Hy & Htag & Hwf). split; [ exact Htag | ].
    split; [ eauto | ].
    rewrite Hy. apply prefix_nodup. exact Hwf. }
  assert (Hstart : forall rs1 rs2,
             timeline_invariant tag
               (timeline_start (handle_all (handle_all [] rs1) rs2))).
  { intros rs1 rs2. apply timeline_start_invariant.
    repeat apply handle_all_wf. exact collector_wf_nil. }
  destruct (failure (goto d)).
  { intros [= <-]. cbn [visited tl_stream tl_store timeline_interrupted].
    split; [ reflexivity | ].
    apply (Hall (timeline_start (handle_all [] (arrived (goto d))))).
    apply (Hstart (arrived (goto d)) []). }
  destruct (failure (wait_for_selector d)).
  { intros [= <-]. cbn [visited tl_stream tl_store timeline_interrupted].
    split; [ reflexivity | ]. apply Hall. apply Hstart. }
  destruct (timeline_loop _ _ _ _ _ _) as [e | ] eqn:Hloop; [ | discriminate ].
  pose proof (timeline_loop_invariant cfg d _ _ _ _ _ (Hstart _ _) Hloop) as Hinv.
  destruct e as [st | st reason]; intros [= <-];
    cbn [visited tl_stream tl_store timeline_interrupted timeline_exit_state] in *;
    (split; [ reflexivity | apply Hall; exact Hinv ]).
Qed.

(** X16: both generators tag what they yield: every record of the stream
    carries [user_<handle>], respectively [search_<query>], as its feed
    type; the stream is the beginning of the dict, whose records are the
    tagged ones; no identifier is yielded twice; and the page visited is the
    profile, respectively the search URL of the query. *)
Theorem timeline_generators_tag_what_they_yield
    (name : string) (fuel : nat) (max_tweets : Z) (r : TimelineResult) :
  (scrape_user_timeline cfg d name fuel max_tweets = Some r ->
   visited r = ("https://x.com/" ++ name)%string
   /\ Forall (fun t => feed_type t = ("user_" ++ name)%string) (tl_stream r)
   /\ (exists n, tl_stream r = firstn n (values (tl_store r)))
   /\ NoDup (map tweet_id (tl_stream r)))
  /\ (scrape_search cfg d name fuel max_tweets = Some r ->
      visited r = search_url name
      /\ Forall (fun t => feed_type t = ("search_" ++ name)%string) (tl_stream r)
      /\ (exists n, tl_stream r = firstn n (values (tl_store r)))
      /\ NoDup (map tweet_id (tl_stream r))).
Proof.
  split; intros H; exact (scrape_timeline_tags _ _ _ _ _ H).
Qed.

Lemma scrape_timeline_runs (url tag : string) (fuel : nat) (max_tweets : Z) :
  (Z.to_nat (max_scrolls cfg) <= fuel)%nat ->
  exists r,
    scrape_timeline cfg d url tag fuel max_tweets = Some r
    /\ Z.of_nat (tl_scroll_count r) <= Z.max 0 (max_scrolls cfg)
    /\ (driver_never_fails d ->
        collector_never_grows d ->
        Z.of_nat (size (collected_at_start d)) < max_tweets ->
        tl_raised r = None
        /\ tl_scroll_count r = Z.to_nat (max_scrolls cfg)
        /\ size (tl_store r) = size (collected_at_start d)).
Proof.
  intros Hfuel. unfold scrape_timeline. fold (collected_at_start d).
  destruct (failure (goto d)) as [reason | ] eqn:Hg.
  { eexists. split; [ reflexivity | ]. cbn. split; [ lia | ].
    intros (Hg' & _) _ _. congruence. }
  destruct (failure (wait_for_selector d)) as [reason | ] eqn:Hw.
  { eexists. split; [ reflexivity | ]. cbn. split; [ lia | ].
    intros (_ & Hw' & _) _ _. congruence. }
  destruct (timeline_loop_terminates cfg d tag max_tweets fuel
              (timeline_start (collected_at_start d))) as [e [He Hcap]].
  { cbn [timeline_start t_scrolls]. lia. }
  rewrite He. cbn [timeline_start t_scrolls] in Hcap.
  assert (Hquiet : driver_never_fails d -> collector_never_grows d ->
                   Z.of_nat (size (collected_at_start d)) < max_tweets ->
                   exists st',
                     e = Exhausted st'
                     /\ t_scrolls st' = Z.to_nat (max_scrolls cfg)
                     /\ size (t_collected st') = size (collected_at_start d)).
  { intros Hok Hq Hsize.
    destruct (quiet_timeline_runs_to_cap cfg d tag max_tweets fuel Hok Hq
                (timeline_start (collected_at_start d))) as (st' & He' & Hsc & Hsz).
    - exact Hsize.
    - cbn [timeline_start t_scrolls]. lia.
    - exists st'. rewrite He in He'. injection He' as ->.
      cbn [timeline_start t_scrolls t_collected] in *. repeat split; [ lia | exact Hsz ]. }
  destruct e as [st | st reason]; eexists; (split; [ reflexivity | ]);
    cbn [tl_scroll_count tl_raised tl_store timeline_interrupted timeline_exit_state] in *;
    (split; [ exact Hcap | ]); intros Hok Hq Hsize;
    destruct (Hquiet Hok Hq Hsize) as (st' & Heq & Hsc & Hsz);
    try discriminate Heq.
  injection Heq as <-. repeat split; assumption.
Qed.

(** X17: both generators end within [max_scrolls] scrolls; and they have no
    stall exit: when no driver call raises, no response adds a record and
    the target is not met, they scroll the full [max_scrolls] times. *)
Theorem timeline_generators_scroll_to_the_cap
    (name : string) (fuel : nat) (max_tweets : Z) :
  (Z.to_nat (max_scrolls cfg) <= fuel)%nat ->
  (exists r,
      scrape_user_timeline cfg d name fuel max_tweets = Some r
      /\ Z.of_nat (tl_scroll_count r) <= Z.max 0 (max_scrolls cfg)
      /\ (driver_never_fails d ->
          collector_never_grows d ->
          Z.of_nat (size (collected_at_start d)) < max_tweets ->
          tl_raised r = None
          /\ tl_scroll_count r = Z.to_nat (max_scrolls cfg)
          /\ size (tl_store r) = size (collected_at_start d)))
  /\ (exists r,
         scrape_search cfg d name fuel max_tweets = Some r
         /\ Z.of_nat (tl_scroll_count r) <= Z.max 0 (max_scrolls cfg)
         /\ (driver_never_fails d ->
             collector_never_grows d ->
             Z.of_nat (size (collected_at_start d)) < max_tweets ->
             tl_raised r = None
             /\ tl_scroll_count r = Z.to_nat (max_scrolls cfg)
             /\ size (tl_store r) = size (collected_at_start d))).
Proof.
  intros Hfuel. split; apply scrape_timeline_runs; exact Hfuel.
Qed.

End TimelineExtras.

(** ** The search URL *)

Lemma space_in_cons (c : ascii) (s : string) :
  str_contains " " (String c s) = Ascii.eqb c " " || str_contains " " s.
Proof.
  cbn [str_contains String.prefix].
  destruct (ascii_dec " " c) as [<- | Hne].
  - destruct s; reflexivity.
  - replace (Ascii.eqb c " ") with false; [ reflexivity | ].
    symmetry. apply Ascii.eqb_neq. congruence.
Qed.

Lemma space_in_app (a b : string) :
  str_contains " " (a ++ b) = str_contains " " a || str_contains " " b.
Proof.
  induction a as [ | c a IH ].
  - cbn [append]. destruct b; reflexivity.
  - cbn [append]. rewrite !space_in_cons, IH. apply orb_assoc.
Qed.

Lemma encode_spaces_no_space (query : string) :
  str_contains " " (encode_spaces query) = false.
Proof.
  induction query as [ | c rest IH ]; [ reflexivity | ].
  cbn [encode_spaces]. destruct (Ascii.eqb c " ") eqn:Hc.
  - rewrite !space_in_cons, IH. reflexivity.
  - rewrite space_in_cons, Hc, IH. reflexivity.
Qed.

(** X18: the search URL never contains a space, whatever the query; a query
    without spaces goes into it unchanged; and each space of the query
    costs two more characters. *)
Theorem search_url_has_no_space (query : string) :
  str_contains " " (search_url query) = false
  /\ (str_contains " " query = false -> encode_spaces query = query)
  /\ (String.length query <= String.length (encode_spaces query)
      <= 3 * String.length query)%nat.
Proof.
  split; [ | split ].
  - unfold search_url. rewrite !space_in_app, encode_spaces_no_space. reflexivity.
  - induction query as [ | c rest IH ]; [ reflexivity | ].
    rewrite space_in_cons. intros H. apply orb_false_elim in H. destruct H as [Hc Hrest].
    cbn [encode_spaces]. rewrite Hc. f_equal. apply IH. exact Hrest.
  - induction query as [ | c rest IH ]; [ cbn; lia | ].
    cbn [encode_spaces]. destruct (Ascii.eqb c " "); cbn [String.length]; lia.
Qed.

(** ** Authentication cookies *)





(** ** Thread engagement *)

Lemma fold_add_from (l : list Z) (a : Z) :
  fold_left Z.add l a = a + fold_left Z.add l 0.
Proof.
  revert a. induction l as [ | x rest IH ]; intros a; cbn [fold_left]; [ lia | ].
  rewrite (IH (a + x)), (IH (0 + x)). lia.
Qed.

(** X20: the engagement of a thread is the sum over its tweets of likes,
    reshares and replies: it adds up over the concatenation of two threads,
    is not negative when no counter is, and is what the method stores in
    the thread, whose tweets it leaves alone; calling the method again
    changes nothing. *)
Theorem thread_engagement_adds_up (thread : TweetThread) (more : list Tweet) :
  fst (calculate_engagement
         {| thread_id := thread_id thread;
            tweets := tweets thread ++ more;
            author_username := author_username thread;
            total_engagement := total_engagement thread |})
  = fst (calculate_engagement thread)
    + fold_left Z.add (map engagement more) 0
  /\ total_engagement (snd (calculate_engagement thread))
     = fst (calculate_engagement thread)
  /\ tweets (snd (calculate_engagement thread)) = tweets thread
  /\ calculate_engagement (snd (calculate_engagement thread))
     = calculate_engagement thread
  /\ (Forall (fun t => 0 <= likes t /\ 0 <= retweets t /\ 0 <= replies t)
        (tweets thread) ->
      0 <= fst (calculate_engagement thread)).
Proof.
  unfold calculate_engagement.
  cbn [fst snd tweets thread_id author_username total_engagement].
  split; [ | split; [ reflexivity | split; [ reflexivity | split; [ reflexivity | ] ] ] ].
  - rewrite map_app, fold_left_app.
    rewrite (fold_add_from (map _ more)). reflexivity.
  - induction (tweets thread) as [ | t rest IH ]; intros Hall; [ cbn; lia | ].
    inversion Hall as [ | t0 rest0 (Hl & Hr & Hp) Hrest ]; subst.
    cbn [map fold_left]. rewrite fold_add_from.
    specialize (IH Hrest). lia.
Qed.

(** ** The convenience function *)

Section ConvenienceFacts.
Context {L : PyLib}.

(** X21: the convenience function returns within the default cap of fifty
    scrolls. What it returns holds no identifier twice. An exception of any
    driver call goes through it, so the records yielded before are lost to
    the caller, and it returns a list when no driver call raises; with a
    target that is not positive and a page that loads, the list is empty. *)
Theorem scrape_for_you_returns (d : Driver) (fuel : nat) (max_tweets : Z) :
  (50 <= fuel)%nat ->
  exists outcome,
    scrape_for_you d fuel max_tweets = Some outcome
    /\ (forall tweets, outcome = Tweets tweets -> NoDup (map tweet_id tweets))
    /\ (driver_never_fails d -> exists tweets, outcome = Tweets tweets)
    /\ (forall reason,
          failure (goto d) = Some reason
          \/ (failure (goto d) = None /\ failure (wait_for_selector d) = Some reason) ->
          outcome = Propagated reason)
    /\ (max_tweets <= 0 -> driver_never_fails d -> outcome = Tweets []).
Proof.
  intros Hfuel. unfold scrape_for_you.
  destruct (scrape_for_you_feed (quick_config max_tweets) d fuel (Some max_tweets))
    as [r | ] eqn:Hr.
  2:{ exfalso. revert Hr. unfold scrape_for_you_feed.
      destruct (failure (goto d)); [ discriminate | ].
      destruct (failure (wait_for_selector d)); [ discriminate | ].
      destruct (scroll_loop_terminates (quick_config max_tweets) d
                  (effective_target (quick_config max_tweets) (Some max_tweets)) fuel
                  (loop_start (handle_all (handle_all [] (arrived (goto d)))
                                 (arrived (wait_for_selector d))))) as [e He].
      { cbn. lia. }
      rewrite He. destruct e; [ destruct (storage_state d) | ]; discriminate. }
  pose proof (session_store_wf _ _ _ _ _ Hr) as Hwf.
  destruct (session_stream_prefix _ _ _ _ _ Hr) as (n & _ & Hstream & _).
  assert (Hnodup : NoDup (map tweet_id (stream r))).
  { rewrite Hstream. apply prefix_nodup. exact Hwf. }
  destruct (scrape_for_you_feed_result _ d _ _ _ Hr)
    as [(reason & c & Hfail & ->) | (Hg & Hw & e & Hloop & ->)].
  - cbn [raised session_failed]. eexists. split; [ reflexivity | ].
    split; [ discriminate | ]. split; [ | split ].
    + intros (Hg & Hw & _). destruct Hfail as [H | [_ H]]; congruence.
    + intros reason' Hfail'.
      destruct Hfail as [H | [H1 H2]]; destruct Hfail' as [H' | [H1' H2']]; congruence.
    + intros _ (Hg & Hw & _). destruct Hfail as [H | [_ H]]; congruence.
  - assert (Hok : driver_never_fails d ->
                  exists st, e = Finished st /\ storage_state d = None).
    { intros (_ & _ & Hs & Hall).
      destruct (scroll_loop_never_crashes _ d _ fuel Hall _ _ Hloop) as [st ->]. eauto. }
    assert (Hskip : max_tweets <= 0 -> driver_never_fails d ->
                    e = Finished (loop_start (collected_at_start d))).
    { intros Hle _. revert Hloop.
      assert (Htarget : effective_target (quick_config max_tweets) (Some max_tweets) <= 0).
      { unfold effective_target. cbn [quick_config tweets_per_session].
        destruct (max_tweets =? 0); exact Hle. }
      destruct fuel; [ rewrite scroll_loop_out_of_fuel | rewrite scroll_loop_unfold ];
        unfold loop_condition; cbn [loop_start collected scrolls];
        replace (_ <? effective_target _ _) with false
          by (symmetry; apply Z.ltb_ge; lia);
        cbn [andb]; congruence. }
    destruct e as [st | st reason];
      [ destruct (storage_state d) as [reason | ] eqn:Hs | ];
      cbn [raised session_failed session_completed stream] in *;
      (eexists; split; [ reflexivity | ]).
    + split; [ discriminate | ]. split; [ | split ].
      * intros Hnf. destruct (Hok Hnf) as (st' & _ & H). discriminate H.
      * intros reason' [H | [_ H]]; congruence.
      * intros _ Hnf. destruct (Hok Hnf) as (st' & _ & H). discriminate H.
    + split; [ intros tweets [= <-]; exact Hnodup | ]. split; [ eauto | split ].
      * intros reason' [H | [_ H]]; congruence.
      * intros Hle Hnf. specialize (Hskip Hle Hnf). injection Hskip as ->. reflexivity.
    + split; [ discriminate | ]. split; [ | split ].
      * intros Hnf. destruct (Hok Hnf) as (st' & H & _). discriminate H.
      * intros reason' [H | [_ H]]; congruence.
      * intros _ Hnf. destruct (Hok Hnf) as (st' & H & _). discriminate H.
Qed.

End ConvenienceFacts.

(** ** Worked instances *)

Lemma handler_keeps_collector_wf_witness :
  collector_wf (handle_all [] [feed payload_A; feed payload_B])
  /\ map tweet_id (values (handle_all [] [feed payload_A; feed payload_B]))
     = ["1"; "2"; "3"; "4"].
Proof.
  destruct (handler_keeps_collector_wf [] [feed payload_A; feed payload_B]
              collector_wf_nil) as [Hwf Hkeys].
  split; [ exact Hwf | ]. rewrite Hkeys. vm_compute. reflexivity.
Defined.

Lemma handler_stores_every_record_witness :
  exists stored,
    collector_get "1" (_handle_response [("1", plain_tweet "1" "first seen")] (feed payload_B))
    = Some stored
    /\ tweet_id stored = "1"
    /\ text stored = "first seen".
Proof.
  destruct (handler_stores_every_record
              [("1", plain_tweet "1" "first seen")] (feed payload_B) payload_B
              [plain_tweet "1" "one"; plain_tweet "1" "one";
               plain_tweet "4" "four"; plain_tweet "4" "four"] (plain_tweet "1" "one"))
    as (stored & Hget & Hid & Hold).
  - split; [ apply NoDup_cons; [ intros [] | constructor ] | repeat constructor ].
  - reflexivity.
  - reflexivity.
  - vm_compute. reflexivity.
  - left. reflexivity.
  - exists stored. split; [ exact Hget | ]. split; [ exact Hid | ].
    specialize (Hold eq_refl). cbn in Hold. injection Hold as <-. reflexivity.
Defined.

Lemma handler_passes_over_bad_responses_witness :
  handle_all [] ([feed payload_A] ++ feed payload_null_legacy :: [feed payload_B])
  = handle_all [] ([feed payload_A] ++ [feed payload_B]).
Proof.
  apply (handler_passes_over_bad_responses [] [feed payload_A] [feed payload_B]
           (feed payload_null_legacy)).
  right. right. exists payload_null_legacy. split; reflexivity.
Defined.

Lemma normalizer_rejects_exactly_without_identifier_or_text_witness :
  @_parse_tweet_object Reference.lib no_text_result = Ok None
  /\ exists t, @_parse_tweet_object Reference.lib full_candidate = Ok (Some t).
Proof.
  split.
  - apply (normalizer_rejects_exactly_without_identifier_or_text no_text_result);
      [ reflexivity | right; reflexivity ].
  - apply (normalizer_rejects_exactly_without_identifier_or_text full_candidate);
      [ reflexivity | split; reflexivity ].
Defined.

Lemma accepted_record_invariants_witness :
  tweet_url (plain_tweet "1" "one") = "https://x.com//status/1"
  /\ (is_reply (plain_tweet "1" "one") = true <->
      exists s, reply_to_tweet_id (plain_tweet "1" "one") = Some s /\ s <> "").
Proof.
  destruct (accepted_record_invariants (tweet_result "1" "one") (plain_tweet "1" "one")
              eq_refl) as (_ & _ & _ & _ & _ & Hurl & Hreply & _).
  split; [ exact Hurl | exact Hreply ].
Defined.

Lemma author_fields_default_witness :
  user_id (plain_tweet "1" "one") = ""
  /\ username (plain_tweet "1" "one") = ""
  /\ display_name (plain_tweet "1" "one") = username (plain_tweet "1" "one").
Proof.
  destruct (author_fields_default (tweet_result "1" "one") (plain_tweet "1" "one")
              eq_refl) as [Hcore Hname].
  destruct (Hcore eq_refl) as (Hid & Hu & _).
  split; [ exact Hid | ]. split; [ exact Hu | ]. apply Hname. reflexivity.
Defined.

Lemma optional_fields_of_accepted_record_witness :
  exists t,
    @_parse_tweet_object Reference.lib full_candidate = Ok (Some t)
    /\ views t <> None
    /\ List.length (media_urls t) = 1%nat.
Proof.
  assert (H : exists t, @_parse_tweet_object Reference.lib full_candidate = Ok (Some t))
    by (eexists; vm_compute; reflexivity).
  destruct H as [t Ht]. exists t. split; [ exact Ht | ].
  destruct (optional_fields_of_accepted_record full_candidate t Ht)
    as (_ & Hviews & Hlen & _).
  split; [ | exact Hlen ].
  intros Hnone. apply Hviews in Hnone. discriminate Hnone.
Defined.

Lemma walker_candidates_are_payload_nodes_witness :
  Forall (fun c => In c (nodes payload_B) /\ truthy c = true)
    [tweet_result "1" "one"; tweet_result "1" "one";
     tweet_result "4" "four"; tweet_result "4" "four"].
Proof.
  apply (walker_candidates_are_payload_nodes recursion_room payload_B).
  vm_compute. reflexivity.
Defined.

Lemma session_yields_each_identifier_once_witness :
  exists r,
    scrape_for_you_feed default_config two_payload_driver 50 None = Some r
    /\ map tweet_id (stream r) = ["1"; "2"; "3"; "4"]
    /\ NoDup (map tweet_id (stream r)).
Proof.
  assert (H : exists r,
             scrape_for_you_feed default_config two_payload_driver 50 None = Some r
             /\ map tweet_id (stream r) = ["1"; "2"; "3"; "4"])
    by (eexists; split; vm_compute; reflexivity).
  destruct H as (r & Hr & Hids). exists r.
  split; [ exact Hr | ]. split; [ exact Hids | ].
  destruct (session_yields_each_identifier_once default_config two_payload_driver
              50 None r Hr) as [Hnodup _].
  exact Hnodup.
Defined.

Lemma loop_skipped_when_target_met_or_no_scroll_allowed_witness :
  exists r,
    scrape_for_you_feed {| max_scrolls := 0; tweets_per_session := 100 |}
      two_payload_driver 5 None = Some r
    /\ status (session r) = completed
    /\ stream r = [].
Proof.
  destruct (loop_skipped_when_target_met_or_no_scroll_allowed
              {| max_scrolls := 0; tweets_per_session := 100 |} two_payload_driver 5 None)
    as (r & Hr & Hstatus & _ & Hstream & _).
  - reflexivity.
  - reflexivity.
  - reflexivity.
  - right. cbn. lia.
  - exists r. repeat split; assumption.
Defined.

Lemma timeline_generators_tag_what_they_yield_witness :
  exists r,
    scrape_search default_config two_payload_driver "rocq prover" 50 50 = Some r
    /\ visited r = "https://x.com/search?q=rocq%20prover&src=typed_query&f=live"
    /\ map tweet_id (tl_stream r) = ["1"; "2"; "3"; "4"]
    /\ Forall (fun t => feed_type t = "search_rocq prover") (tl_stream r).
Proof.
  assert (H : exists r,
             scrape_search default_config two_payload_driver "rocq prover" 50 50 = Some r
             /\ map tweet_id (tl_stream r) = ["1"; "2"; "3"; "4"])
    by (eexists; split; vm_compute; reflexivity).
  destruct H as (r & Hr & Hids). exists r.
  destruct (timeline_generators_tag_what_they_yield default_config two_payload_driver
              "rocq prover" 50 50 r) as [_ Hsearch].
  destruct (Hsearch Hr) as (Hurl & Htag & _).
  split; [ exact Hr | ]. split; [ exact Hurl | ]. split; [ exact Hids | exact Htag ].
Defined.

Lemma timeline_generators_scroll_to_the_cap_witness :
  exists r,
    scrape_user_timeline default_config (scripted []) "jack" 50 20 = Some r
    /\ tl_raised r = None
    /\ tl_scroll_count r = 50%nat.
Proof.
  destruct (timeline_generators_scroll_to_the_cap default_config (scripted []) "jack" 50 20)
    as [(r & Hr & _ & Hquiet) _].
  { cbn. lia. }
  destruct (Hquiet (scripted_never_fails [] (Forall_nil _)) silent_driver_never_grows)
    as (Hraised & Hscrolls & _).
  { cbn. lia. }
  exists r. repeat split; assumption.
Defined.

Lemma scrape_for_you_returns_witness :
  exists outcome,
    scrape_for_you two_payload_driver 50 3 = Some outcome
    /\ (forall tweets, outcome = Tweets tweets -> NoDup (map tweet_id tweets))
    /\ exists tweets, outcome = Tweets tweets.
Proof.
  destruct (scrape_for_you_returns two_payload_driver 50 3) as (o & Ho & Hnodup & Hok & _).
  { lia. }
  exists o. split; [ exact Ho | ]. split; [ exact Hnodup | ].
  apply Hok. apply scripted_never_fails. repeat constructor.
Defined.
